(** * A k-nearest-neighbours classifier and a monthly cross-validation splitter

    Shallow embedding of [sklearn_questions.py]: the estimator
    [KNearestNeighbors] (fit / predict / score, with the helper
    [most_common_label]) and the splitter [MonthlySplit]
    (get_n_splits / split).

    Conventions of the embedding.
    - Python exceptions are the constructors of [exn]; a call that may raise
      returns a [result].
    - A finite number held in an array is the rational it denotes ([Qc],
      canonical fractions, so that Leibniz equality is numeric equality).
      What numpy and scikit-learn compute in [float64] is a [np_float]: the
      result of every operation is rounded to the nearest binary64
      ([round64]), and can be an infinity or NaN.
    - Library routines the source calls ([check_X_y], [check_array],
      [check_is_fitted], [Counter], [Index.get_loc], ...) are embedded after
      their documented behaviour.  Two of them are section variables:
      [np.argsort], called with its default [kind], for which numpy
      documents the result (indices that sort the keys, NaN last) but not
      the order of equal keys; and the entry of [pairwise_distances] for a
      pair of rows, a [float64] whose last bits depend on the order in which
      the library adds the products of a row.  [euclidean64] is that entry
      with the products added from left to right, which is the library's
      value on rows of one feature. *)

From Stdlib Require Import QArith Qcanon.
From stdpp Require Import numbers list sorting gmap strings.

Local Open Scope Z_scope.

(** ** Exceptions and results *)

Inductive exn : Type :=
| NotFittedError
| ValueError (msg : string)
| KeyError
| AttributeError
| AssertionError
| IndexError.

Inductive result (A : Type) : Type :=
| Ok (a : A)
| Raise (e : exn).
Arguments Ok {A} a.
Arguments Raise {A} e.

Global Instance result_ret : MRet result := λ A a, Ok a.
Global Instance result_bind : MBind result :=
  λ A B f m, match m with Ok a => f a | Raise e => Raise e end.

(** [[f(x) for x in l]] where [f] may raise: the first exception wins. *)
Fixpoint map_result {A B} (f : A → result B) (l : list A) : result (list B) :=
  match l with
  | [] => Ok []
  | x :: r => y ← f x; ys ← map_result f r; Ok (y :: ys)
  end.

(** Python's [l[:k]] for an integer [k] (a negative [k] counts from the end). *)
Definition slice_to {A} (l : list A) (k : Z) : list A :=
  if bool_decide (0 ≤ k) then take (Z.to_nat k) l
  else take (Z.to_nat (Z.of_nat (length l) + k)) l.

(** [a[idx]] for an integer index array [idx] over a one-dimensional [a]. *)
Definition take_indices {A} (a : list A) (idx : list nat) : result (list A) :=
  map_result (λ i, match a !! i with Some v => Ok v | None => Raise IndexError end) idx.

(** ** [collections.Counter] and [most_common_label] *)

Section Counter.
Context {A : Type} `{EqDecision A}.

(** A [Counter] is a [dict]: its items are kept in the order the keys were
    first inserted. *)
Fixpoint counter_incr (x : A) (c : list (A * nat)) : list (A * nat) :=
  match c with
  | [] => [(x, 1%nat)]
  | (k, n) :: r => if decide (k = x) then (k, S n) :: r else (k, n) :: counter_incr x r
  end.

Definition Counter (array : list A) : list (A * nat) :=
  foldl (λ c x, counter_incr x c) [] array.

(** [max(items, key=count)]: the running maximum is replaced only by a
    strictly greater item, so the first maximal item is returned. *)
Fixpoint py_max_by_count (best : A * nat) (items : list (A * nat)) : A * nat :=
  match items with
  | [] => best
  | it :: r => py_max_by_count (if bool_decide (best.2 < it.2)%nat then it else best) r
  end.

(** [counter.most_common(1)], that is [heapq.nlargest(1, items, key=count)]. *)
Definition most_common_1 (c : list (A * nat)) : list (A * nat) :=
  match c with
  | [] => []
  | it :: r => [py_max_by_count it r]
  end.

(** Number of occurrences of a label in an array. *)
Definition occurrences (x : A) (l : list A) : nat := length (filter (λ y, y = x) l).

Definition most_common_label (array : list A) : option A :=
  match most_common_1 (Counter array) with
  | [] => None
  | it :: _ => Some it.1
  end.

(** The counter after reading [l]: one item per distinct label, holding its
    number of occurrences, the items in the order the labels first occur. *)
Record counts_of (l : list A) (c : list (A * nat)) : Prop := {
  counts_nodup : NoDup c.*1;
  counts_value : ∀ (x : A) (n : nat), (x, n) ∈ c → n = occurrences x l ∧ (0 < n)%nat;
  counts_dom : ∀ x : A, x ∈ l → x ∈ c.*1;
  counts_order : ∀ (i j : nat) (x y : A) (n m : nat), (i < j)%nat →
    c !! i = Some (x, n) → c !! j = Some (y, m) →
    ∃ p, l !! p = Some x ∧ ∀ q, (q ≤ p)%nat → l !! q ≠ Some y
}.

(** The running maximum: the first item whose count no item exceeds. *)
Definition first_max (c : list (A * nat)) (b : A * nat) : Prop :=
  ∃ i, c !! i = Some b ∧
       (∀ e, e ∈ c → (e.2 ≤ b.2)%nat) ∧
       (∀ j e, (j < i)%nat → c !! j = Some e → (e.2 < b.2)%nat).

End Counter.

(** ** [KNearestNeighbors] *)

Module KNN.

Abbreviation vector := (list Qc).
Abbreviation matrix := (list (list Qc)).

(** The instance: the constructor parameter and the four attributes [fit]
    sets ([None]: the attribute does not exist). *)
Record KNearestNeighbors : Type := {
  n_neighbors : Z;
  X_ : option matrix;
  y_ : option (list Qc);
  n_features_in_ : option nat;
  classes_ : option (list Qc)
}.

(** [KNearestNeighbors(n_neighbors=k)]. *)
Definition init (k : Z) : KNearestNeighbors :=
  {| n_neighbors := k; X_ := None; y_ := None; n_features_in_ := None; classes_ := None |}.

(** *** Validation helpers of scikit-learn *)

Definition msg_not_2d := "Expected 2D array, got 1D array instead".
Definition msg_ragged := "setting an array element with a sequence".
Definition msg_no_feature := "Found array with 0 feature(s)".
Definition msg_inconsistent := "Found input variables with inconsistent numbers of samples".
Definition msg_dimension := "Incompatible dimension for X and Y matrices".
Definition msg_label_type := "Unknown label type: continuous".
Definition msg_broadcast := "operands could not be broadcast together".

(** [X.shape[1]] of a rectangular matrix. *)
Definition n_columns (X : matrix) : nat :=
  match X with
  | [] => 0
  | r :: _ => length r
  end.

(** [check_array(X)]: a two-dimensional (rectangular) array with at least one
    row and one column. *)
Definition check_array (X : matrix) : result matrix :=
  match X with
  | [] => Raise (ValueError msg_not_2d)
  | r :: rs =>
      if negb (forallb (λ r', bool_decide (length r' = length r)) rs)
      then Raise (ValueError msg_ragged)
      else if bool_decide (length r = 0%nat)
      then Raise (ValueError msg_no_feature)
      else Ok X
  end.

(** [check_X_y(X, y)]: [X] as [check_array], and one label per row. *)
Definition check_X_y (X : matrix) (y : list Qc) : result (matrix * list Qc) :=
  X ← check_array X;
  if bool_decide (length X = length y) then Ok (X, y)
  else Raise (ValueError msg_inconsistent).

(** The shapes [check_X_y] has to reject: no row, rows of different
    lengths, rows without features, or a number of labels other than the
    number of rows. *)
Definition malformed (X : matrix) (y : list Qc) : Prop :=
  X = [] ∨
  (∃ r r', r ∈ X ∧ r' ∈ X ∧ length r ≠ length r') ∨
  (∃ r, r ∈ X ∧ length r = 0%nat) ∨
  length X ≠ length y.

(** A float is a class label when casting it to [int64] and back gives the
    same number, that is when it is integral and within the range of
    [int64]; [type_of_target] calls any other array of floats
    ["continuous"]. *)
Definition integral (q : Qc) : bool :=
  bool_decide (Qden (this q) = 1%positive) &&
  bool_decide (- 2 ^ 63 ≤ Qnum (this q) < 2 ^ 63).

(** [check_classification_targets(y)]. *)
Definition check_classification_targets (y : list Qc) : result unit :=
  if forallb integral y then Ok () else Raise (ValueError msg_label_type).

(** [check_is_fitted(self)]: some attribute with a trailing underscore exists. *)
Definition check_is_fitted (self : KNearestNeighbors) : result unit :=
  if is_Some_dec (X_ self) then Ok ()
  else if is_Some_dec (y_ self) then Ok ()
  else if is_Some_dec (n_features_in_ self) then Ok ()
  else if is_Some_dec (classes_ self) then Ok ()
  else Raise NotFittedError.

(** Reading an attribute that may not exist. *)
Definition getattr {A} (a : option A) : result A :=
  match a with
  | Some v => Ok v
  | None => Raise AttributeError
  end.

(** [np.unique(y)]: the distinct values, ascending. *)
Definition np_unique (y : list Qc) : list Qc := merge_sort Qcle (remove_dups y).

(** *** fit

    The body of [fit] is a sequence of statements over the instance: each
    either completes, possibly writing an attribute, or raises and leaves the
    instance as it is at that point. *)
Definition stmt (A : Type) : Type := KNearestNeighbors → KNearestNeighbors * result A.

Definition call {A} (r : result A) : stmt A := λ self, (self, r).

Definition then_ {A B} (s : stmt A) (k : A → stmt B) : stmt B :=
  λ self, match s self with
          | (self', Ok a) => k a self'
          | (self', Raise e) => (self', Raise e)
          end.

Definition set_X_ (X : matrix) : stmt unit :=
  λ self, ({| n_neighbors := n_neighbors self; X_ := Some X; y_ := y_ self;
              n_features_in_ := n_features_in_ self; classes_ := classes_ self |}, Ok ()).
Definition set_y_ (y : list Qc) : stmt unit :=
  λ self, ({| n_neighbors := n_neighbors self; X_ := X_ self; y_ := Some y;
              n_features_in_ := n_features_in_ self; classes_ := classes_ self |}, Ok ()).
Definition set_n_features_in_ (n : nat) : stmt unit :=
  λ self, ({| n_neighbors := n_neighbors self; X_ := X_ self; y_ := y_ self;
              n_features_in_ := Some n; classes_ := classes_ self |}, Ok ()).
Definition set_classes_ (c : list Qc) : stmt unit :=
  λ self, ({| n_neighbors := n_neighbors self; X_ := X_ self; y_ := y_ self;
              n_features_in_ := n_features_in_ self; classes_ := Some c |}, Ok ()).

Definition fit (X : matrix) (y : list Qc) : stmt unit :=
  then_ (call (check_X_y X y)) (λ '(X, y),
  then_ (call (check_classification_targets y)) (λ _,
  then_ (set_X_ X) (λ _,
  then_ (set_y_ y) (λ _,
  then_ (set_n_features_in_ (n_columns X)) (λ _,
  set_classes_ (np_unique y)))))).

(** *** float64

    A [float64] that is finite is given by the rational it denotes (the sign
    of a zero is not kept: no operation below tells the two zeros apart). *)
Inductive np_float : Type :=
| Finite (q : Qc)
| PosInf
| NegInf
| NaN.

Global Instance np_float_eq_dec : EqDecision np_float.
Proof. solve_decision. Defined.

(** [2^e] for any integer [e]. *)
Definition pow2 (e : Z) : Qc :=
  if bool_decide (0 ≤ e) then Qc_of_Z (2 ^ e) else (/ Qc_of_Z (2 ^ (- e)))%Qc.

(** The same rational, its canonicity proof recomputed from the fraction (so
    that results that are equal are so by computation). *)
Definition canonical (v : Qc) : Qc := Q2Qc (this v).

(** The integer nearest to [n / d] (for [0 < d]), a half going to the even
    neighbour. *)
Definition round_half_even (n d : Z) : Z :=
  let fl := n `div` d in
  let twice := 2 * (n `mod` d) in
  if bool_decide (twice < d) then fl
  else if bool_decide (d < twice) then fl + 1
  else if Z.even fl then fl else fl + 1.

(** The binary64 nearest to the positive fraction [n / d]: 53 significant
    bits, the exponent of the leading bit from -1022 (below, the spacing
    stays [2^-1074]) to 1023 (above, the result is infinite: [None]). *)
Definition round64_pos (n d : Z) : option Qc :=
  let e0 := Z.log2 n - Z.log2 d in
  let e := if bool_decide (0 ≤ e0)
           then (if bool_decide (d * 2 ^ e0 ≤ n) then e0 else e0 - 1)
           else (if bool_decide (d ≤ n * 2 ^ (- e0)) then e0 else e0 - 1) in
  let ex := Z.max e (-1022) - 52 in
  let m := if bool_decide (0 ≤ ex) then round_half_even n (d * 2 ^ ex)
           else round_half_even (n * 2 ^ (- ex)) d in
  if bool_decide (0 ≤ ex) && bool_decide (2 ^ 1024 ≤ m * 2 ^ ex) then None
  else Some (canonical (Qc_of_Z m * pow2 ex))%Qc.

(** Rounding to nearest, ties to even: the [float64] a real result becomes. *)
Definition round64 (q : Qc) : np_float :=
  let n := Qnum (this q) in
  let d := Zpos (Qden (this q)) in
  if bool_decide (n = 0) then Finite 0%Qc
  else if bool_decide (0 < n)
  then match round64_pos n d with Some v => Finite v | None => PosInf end
  else match round64_pos (- n) d with
       | Some v => Finite (canonical (- v))%Qc
       | None => NegInf
       end.

Definition fadd (a b : np_float) : np_float :=
  match a, b with
  | Finite p, Finite q => round64 (p + q)%Qc
  | NaN, _ | _, NaN => NaN
  | PosInf, NegInf | NegInf, PosInf => NaN
  | PosInf, _ | _, PosInf => PosInf
  | NegInf, _ | _, NegInf => NegInf
  end.

Definition fneg (a : np_float) : np_float :=
  match a with
  | Finite p => Finite (- p)%Qc
  | PosInf => NegInf
  | NegInf => PosInf
  | NaN => NaN
  end.

Definition fmul (a b : np_float) : np_float :=
  match a, b with
  | Finite p, Finite q => round64 (p * q)%Qc
  | NaN, _ | _, NaN => NaN
  | Finite p, i | i, Finite p =>
      if bool_decide (p = 0%Qc) then NaN
      else if bool_decide (0 < p)%Qc then i else fneg i
  | PosInf, PosInf | NegInf, NegInf => PosInf
  | PosInf, NegInf | NegInf, PosInf => NegInf
  end.

(** [np.maximum(a, 0)]: NaN goes through. *)
Definition fmax0 (a : np_float) : np_float :=
  match a with
  | Finite p => if bool_decide (p ≤ 0)%Qc then Finite 0%Qc else Finite p
  | PosInf => PosInf
  | NegInf => Finite 0%Qc
  | NaN => NaN
  end.

(** The square root, correctly rounded.  With [s] the integer square root of
    [p * 2^1200], the root of [p] lies in [s / 2^600, (s + 1) / 2^600), and
    strictly inside when [p * 2^1200] is not the square of [s]; [s] has more
    than 54 bits for every positive [float64], so no [float64] and no middle
    of two neighbours lies strictly inside, and rounding the middle of the
    interval gives the rounded root. *)
Definition fsqrt (a : np_float) : np_float :=
  match a with
  | Finite p =>
      if bool_decide (p < 0)%Qc then NaN
      else
        let n := Qnum (this p) * 2 ^ 1200 in
        let d := Zpos (Qden (this p)) in
        let N := n `div` d in
        let s := Z.sqrt N in
        if bool_decide (s * s = N) && bool_decide (n `mod` d = 0)
        then round64 (Qc_of_Z s * pow2 (-600))%Qc
        else round64 (Qc_of_Z (2 * s + 1) * pow2 (-601))%Qc
  | PosInf => PosInf
  | NegInf => NaN
  | NaN => NaN
  end.

(** The order numpy sorts floats in: ascending, NaN after everything else. *)
Definition np_leb (a b : np_float) : bool :=
  match a, b with
  | _, NaN => true
  | NaN, _ => false
  | NegInf, _ => true
  | _, NegInf => false
  | _, PosInf => true
  | PosInf, _ => false
  | Finite p, Finite q => bool_decide (p ≤ q)%Qc
  end.

Definition np_le (a b : np_float) : Prop := np_leb a b = true.
Definition np_lt (a b : np_float) : Prop := np_leb b a = false.

(** *** predict and score *)

(** A sum of products in [float64], the products added from left to right. *)
Definition dot64 (x y : vector) : np_float :=
  foldl fadd (Finite 0%Qc) (zip_with (λ a b, fmul (round64 a) (round64 b)) x y).

(** The entry of scikit-learn's [euclidean_distances] for the rows [x] and
    [y]: [sqrt(max(x.x - 2 x.y + y.y, 0))], computed in [float64] as
    [((-2 * x.y) + x.x) + y.y]. *)
Definition euclidean64 (x y : vector) : np_float :=
  let XX := dot64 x x in
  let YY := dot64 y y in
  let distances := fmul (Finite (Qc_of_Z (-2))) (dot64 x y) in
  let distances := fadd distances XX in
  let distances := fadd distances YY in
  fsqrt (fmax0 distances).

Definition Qc_of_nat (n : nat) : Qc := Qc_of_Z (Z.of_nat n).

(** [b.mean()] of a boolean array: the number of [True] entries, summed in
    [float64] (exactly: an array has fewer than [2^53] entries), divided by
    the length; NaN for an empty array. *)
Definition mean (b : list bool) : np_float :=
  match b with
  | [] => NaN
  | _ => round64 (Qc_of_nat (length (filter (λ x, x = true) b)) / Qc_of_nat (length b))%Qc
  end.

(** [y == y_pred] between one-dimensional arrays, with numpy's broadcasting
    of an array of length one. *)
Definition np_equal (y : list Qc) (y_pred : list (option Qc)) : result (list bool) :=
  let eqb (a : Qc) (p : option Qc) := bool_decide (Some a = p) in
  if bool_decide (length y = length y_pred) then Ok (zip_with eqb y y_pred)
  else match y, y_pred with
       | [a], _ => Ok (eqb a <$> y_pred)
       | _, [p] => Ok ((λ a, eqb a p) <$> y)
       | _, _ => Raise (ValueError msg_broadcast)
       end.

Section Estimator.

(** The entry of [pairwise_distances(X, Y)] for a row of [X] and a row of
    [Y]: a [float64]. *)
Variable distance : vector → vector → np_float.

(** [np.argsort] on one row of keys, with the default [kind]. *)
Variable argsort : list np_float → list nat.

(** [pairwise_distances(X, Y)]: one row of distances per row of [X]. *)
Definition pairwise_distances (X Y : matrix) : result (list (list np_float)) :=
  if bool_decide (n_columns X = n_columns Y)
  then Ok ((λ x, distance x <$> Y) <$> X)
  else Raise (ValueError msg_dimension).

(** [np.argsort(D)[:, :k]]. *)
Definition closest_rows (D : list (list np_float)) (k : Z) : list (list nat) :=
  (λ row, slice_to (argsort row) k) <$> D.

Definition predict (self : KNearestNeighbors) (X : matrix) : result (list (option Qc)) :=
  _ ← check_is_fitted self;
  X ← check_array X;
  Xt ← getattr (X_ self);
  D ← pairwise_distances X Xt;
  let closest := closest_rows D (n_neighbors self) in
  map_result (λ c, yt ← getattr (y_ self);
                   labels ← take_indices yt c;
                   Ok (most_common_label labels)) closest.

Definition score (self : KNearestNeighbors) (X : matrix) (y : list Qc) : result np_float :=
  _ ← check_classification_targets y;
  y_pred ← predict self X;
  b ← np_equal y y_pred;
  Ok (mean b).

(** The row of [np.argsort(D)] for the query row [x], and the row of
    [closest]: the training positions [predict] consults for [x]. *)
Definition ranking (Xt : matrix) (x : vector) : list nat :=
  argsort (distance x <$> Xt).
Definition consulted (self : KNearestNeighbors) (Xt : matrix) (x : vector) : list nat :=
  slice_to (ranking Xt x) (n_neighbors self).

(** One prediction: the most common label among the labels of the consulted
    rows, read in ranking order. *)
Definition predicted (self : KNearestNeighbors) (Xt : matrix) (yt : list Qc)
    (x : vector) (y_hat : option Qc) : Prop :=
  ∃ labels, take_indices yt (consulted self Xt x) = Ok labels ∧
            y_hat = most_common_label labels.

End Estimator.

(** The square of the Euclidean distance between two rows, exactly: what a
    statement about the distance of two rows speaks of.  The code never
    computes it. *)
Fixpoint exact_sq_distance (x y : vector) : Qc :=
  match x, y with
  | a :: x', b :: y' => ((a - b) * (a - b) + exact_sq_distance x' y')%Qc
  | _, _ => 0%Qc
  end.

End KNN.

(** ** [np.argsort]

    [np.argsort(keys)] returns the positions of [keys] in sorted order: the
    result lists every position of [keys] once, and reading the keys in that
    order gives them in ascending order, NaN last.  With the default [kind]
    (["quicksort"]) the order of positions that hold equal keys is left to
    the sorting algorithm. *)

Module Argsort.
Import KNN.

Record sorts (argsort : list np_float → list nat) : Prop := {
  sorts_perm : ∀ keys, argsort keys ≡ₚ seq 0 (length keys);
  sorts_ascending : ∀ keys (i j a b : nat) (ka kb : np_float),
    (i ≤ j)%nat →
    argsort keys !! i = Some a → argsort keys !! j = Some b →
    keys !! a = Some ka → keys !! b = Some kb →
    np_le ka kb
}.

(** Two sorts by insertion, for running the estimator: each position is
    inserted, last position first, in front of the first entry that [before]
    lets it precede. *)
Fixpoint insert_entry (before : np_float → np_float → bool) (p : nat * np_float)
    (l : list (nat * np_float)) : list (nat * np_float) :=
  match l with
  | [] => [p]
  | q :: r => if before p.2 q.2 then p :: q :: r else q :: insert_entry before p r
  end.

Definition argsort_by (before : np_float → np_float → bool) (keys : list np_float)
  : list nat :=
  (foldr (insert_entry before) [] (zip (seq 0 (length keys)) keys)).*1.

(** Equal keys keep their original order.  This is the order numpy's
    quicksort leaves a short array in, which it sorts by insertion, moving
    an entry only past strictly greater ones. *)
Definition argsort_stable : list np_float → list nat :=
  argsort_by np_leb.

(** Equal keys come out in reverse order: ascending as well. *)
Definition argsort_reversing : list np_float → list nat :=
  argsort_by (λ a b, negb (np_leb b a)).

(** Entries in ascending order of their keys. *)
Definition ascending (p q : nat * np_float) : Prop := np_le p.2 q.2.

End Argsort.

(** ** [MonthlySplit] *)

Module Monthly.

(** *** Tables *)

(** A [pd.Timestamp]: the calendar fields [split] reads, and the rest. *)
Record Timestamp : Type := {
  year : Z;
  month : Z;
  day : Z;
  nanos : Z   (* nanoseconds since midnight *)
}.

Global Instance Timestamp_eq_dec : EqDecision Timestamp.
Proof. solve_decision. Defined.

(** The values an index or an object column holds. *)
Inductive scalar : Type :=
| Time (t : Timestamp)
| Int (n : Z)
| Str (s : string).

Global Instance scalar_eq_dec : EqDecision scalar.
Proof. solve_decision. Defined.

Inductive time_unit : Type := ns | us | ms | s.

(** A column, by dtype: [datetime64[unit]] or [datetime64[unit, tz]],
    [int64], or [object]. *)
Inductive Series : Type :=
| DatetimeSeries (unit : time_unit) (tz : option string) (data : list Timestamp)
| Int64Series (data : list Z)
| ObjectSeries (data : list scalar).

Inductive Index : Type :=
| DatetimeIndex (tz : option string) (data : list Timestamp)
| Int64Index (data : list Z)
| ObjectIndex (data : list scalar).

Record DataFrame : Type := {
  index : Index;
  columns : list (string * Series)
}.

Definition index_values (i : Index) : list scalar :=
  match i with
  | DatetimeIndex _ data => Time <$> data
  | Int64Index data => Int <$> data
  | ObjectIndex data => data
  end.

Definition series_values (c : Series) : list scalar :=
  match c with
  | DatetimeSeries _ _ data => Time <$> data
  | Int64Series data => Int <$> data
  | ObjectSeries data => data
  end.

Definition unit_name (u : time_unit) : string :=
  match u with ns => "ns" | us => "us" | ms => "ms" | s => "s" end.

(** The name a dtype compares equal to. *)
Definition dtype (c : Series) : string :=
  match c with
  | DatetimeSeries u None _ => "datetime64[" +:+ unit_name u +:+ "]"
  | DatetimeSeries u (Some tz) _ => "datetime64[" +:+ unit_name u +:+ ", " +:+ tz +:+ "]"
  | Int64Series _ => "int64"
  | ObjectSeries _ => "object"
  end.

(** Every column has one entry per row. *)
Definition well_formed (X : DataFrame) : Prop :=
  Forall (λ c, length (series_values c.2) = length (index_values (index X))) (columns X).

(** [X[name]]: a [Series], a [DataFrame] when several columns carry the name,
    [KeyError] when none does. *)
Inductive selection : Type :=
| OneSeries (c : Series)
| SubFrame (cols : list (string * Series)).

Definition getitem (X : DataFrame) (name : string) : result selection :=
  match filter (λ c, c.1 = name) (columns X) with
  | [] => Raise KeyError
  | [c] => Ok (OneSeries c.2)
  | cs => Ok (SubFrame cs)
  end.

(** Iterating: a [Series] gives its values, a [DataFrame] its column names. *)
Definition iterate (x : selection) : list scalar :=
  match x with
  | OneSeries c => series_values c
  | SubFrame cols => Str <$> cols.*1
  end.

(** [(date.year, date.month)]; only a timestamp has these attributes. *)
Definition year_month (date : scalar) : result (Z * Z) :=
  match date with
  | Time t => Ok (year t, month t)
  | _ => Raise AttributeError
  end.

(** *** Order of tuples and of index values *)

(** Python's order on pairs of integers. *)
Definition key_le (a b : Z * Z) : Prop := a.1 < b.1 ∨ (a.1 = b.1 ∧ a.2 ≤ b.2).

Global Instance key_le_dec : RelDecision key_le.
Proof. intros a b. unfold key_le. apply _. Defined.

(** Strictly earlier month. *)
Definition key_lt (a b : Z * Z) : Prop := a.1 < b.1 ∨ (a.1 = b.1 ∧ a.2 < b.2).

(** [sorted(set(df))]. *)
Definition sorted_distinct (df : list (Z * Z)) : list (Z * Z) :=
  merge_sort key_le (elements (list_to_set df : gset (Z * Z))).

Fixpoint lex_leb (a b : list Z) : bool :=
  match a, b with
  | [], _ => true
  | _ :: _, [] => false
  | x :: a', y :: b' =>
      if bool_decide (x < y) then true
      else if bool_decide (x = y) then lex_leb a' b' else false
  end.

Definition scalar_leb (a b : scalar) : bool :=
  match a, b with
  | Time t, Time u => lex_leb [year t; month t; day t; nanos t] [year u; month u; day u; nanos u]
  | Int m, Int n => bool_decide (m ≤ n)
  | Str x, Str y => bool_decide (x = y) || String.ltb x y
  | _, _ => false
  end.

Definition scalar_ltb (a b : scalar) : bool :=
  scalar_leb a b && negb (bool_decide (a = b)).

(** *** [Index.get_loc] *)

Inductive loc : Type :=
| LocInt (i : nat)
| LocSlice (start stop : nat)
| LocMask (mask : list bool).

Definition is_unique (values : list scalar) : bool := bool_decide (NoDup values).

Fixpoint is_monotonic_increasing (values : list scalar) : bool :=
  match values with
  | a :: (b :: _) as r => scalar_leb a b && is_monotonic_increasing r
  | _ => true
  end.

(** Position of the first entry equal to [key]. *)
Fixpoint position (key : scalar) (values : list scalar) : option nat :=
  match values with
  | [] => None
  | v :: r => if decide (v = key) then Some 0%nat else S <$> position key r
  end.

(** [values.searchsorted(key, side)] on an ascending array. *)
Definition searchsorted_left (values : list scalar) (key : scalar) : nat :=
  length (filter (λ v, scalar_ltb v key = true) values).
Definition searchsorted_right (values : list scalar) (key : scalar) : nat :=
  length (filter (λ v, scalar_leb v key = true) values).

(** The index engine: a hash lookup when the values are unique; otherwise a
    pair of binary searches when they are ascending, and a comparison with
    every value when they are not. *)
Definition engine_get_loc (values : list scalar) (key : scalar) : result loc :=
  if is_unique values then
    match position key values with
    | Some i => Ok (LocInt i)
    | None => Raise KeyError
    end
  else if is_monotonic_increasing values then
    let left := searchsorted_left values key in
    let right := searchsorted_right values key in
    match (right - left)%nat with
    | 0%nat => Raise KeyError
    | 1%nat => Ok (LocInt left)
    | _ => Ok (LocSlice left right)
    end
  else
    let indexer := (λ v, bool_decide (v = key)) <$> values in
    match length (filter (λ b, b = true) indexer) with
    | 0%nat => Raise KeyError
    | 1%nat => match position key values with
               | Some i => Ok (LocInt i)
               | None => Raise KeyError
               end
    | _ => Ok (LocMask indexer)
    end.

Definition get_loc (i : Index) (key : scalar) : result loc :=
  engine_get_loc (index_values i) key.

(** *** The splitter *)

Record MonthlySplit : Type := { time_col : string }.

Definition msg_index := "Index of the DataFrame is not datetime".
Definition msg_column := "The splitting column is not a datetime".
Definition msg_item_length := "Item wrong length".

Definition isinstance_DatetimeIndex (i : Index) : bool :=
  match i with DatetimeIndex _ _ => true | _ => false end.

Definition isinstance_Series (x : selection) : bool :=
  match x with OneSeries _ => true | SubFrame _ => false end.

(** [x.dtype != 'datetime64[ns]'] (a [DataFrame] has no [dtype]). *)
Definition dtype_differs (x : selection) : result bool :=
  match x with
  | OneSeries c => Ok (bool_decide (dtype c ≠ "datetime64[ns]"))
  | SubFrame _ => Raise AttributeError
  end.

Definition get_n_splits (self : MonthlySplit) (X : DataFrame) : result Z :=
  keys ← (if bool_decide (time_col self = "index")
          then map_result year_month (index_values (index X))
          else c ← getitem X (time_col self); map_result year_month (iterate c));
  let unique_year_month : gset (Z * Z) := list_to_set keys in
  let n_splits := Z.of_nat (size unique_year_month) - 1 in
  Ok n_splits.

(** [X[mask].index.tolist()]: the index values of the rows the mask keeps, in
    row order. *)
Definition masked_index (X : DataFrame) (mask : list bool) : result (list scalar) :=
  let values := index_values (index X) in
  if bool_decide (length mask = length values)
  then Ok ((filter (λ p, p.1 = true) (zip mask values)).*2)
  else Raise (ValueError msg_item_length).

(** The mask [df == key]. *)
Definition month_mask (df : list (Z * Z)) (key : Z * Z) : list bool :=
  (λ k, bool_decide (k = key)) <$> df.

(** [[X.index.get_loc(elm) for elm in X[df == key].index.tolist()]]. *)
Definition rows_of (X : DataFrame) (df : list (Z * Z)) (key : Z * Z) : result (list loc) :=
  labels ← masked_index X (month_mask df key);
  map_result (get_loc (index X)) labels.

Abbreviation fold := (list loc * list loc)%type.

(** A generator run to exhaustion: the values it yielded, in order, and the
    exception that ended it, if one did. *)
Abbreviation generated A := (list A * option exn)%type.

(** [for i in range(n): yield body(i)]. *)
Fixpoint for_yield {A} (body : Z → result A) (range : list Z) : generated A :=
  match range with
  | [] => ([], None)
  | i :: r =>
      match body i with
      | Raise e => ([], Some e)
      | Ok v => let '(vs, e) := for_yield body r in (v :: vs, e)
      end
  end.

Definition py_range (n : Z) : list Z := Z.of_nat <$> seq 0 (Z.to_nat n).

(** [l[i]] for an integer [i] that is not negative. *)
Definition item {A} (l : list A) (i : Z) : result A :=
  match l !! Z.to_nat i with
  | Some v => Ok v
  | None => Raise IndexError
  end.

(** What [split] does before its loop: the key of every row, the sorted
    distinct keys, and the number of folds. *)
Definition split_setup (self : MonthlySplit) (X : DataFrame)
  : result (list (Z * Z) * list (Z * Z) * Z) :=
  df ← (if bool_decide (time_col self = "index") then
          if negb (isinstance_DatetimeIndex (index X))
          then Raise (ValueError msg_index)
          else map_result year_month (index_values (index X))
        else
          c ← getitem X (time_col self);
          d ← (if negb (isinstance_Series c) then Ok true else dtype_differs c);
          if d : bool then Raise (ValueError msg_column)
          else map_result year_month (iterate c));
  let unique_year_month := sorted_distinct df in
  n_splits ← get_n_splits self X;
  if bool_decide (Z.of_nat (length unique_year_month) = n_splits + 1)
  then Ok (df, unique_year_month, n_splits)
  else Raise AssertionError.

Definition split (self : MonthlySplit) (X : DataFrame) : generated fold :=
  match split_setup self X with
  | Raise e => ([], Some e)
  | Ok (df, unique_year_month, n_splits) =>
      for_yield (λ i,
        k_train ← item unique_year_month i;
        idx_train ← rows_of X df k_train;
        k_test ← item unique_year_month (i + 1);
        idx_test ← rows_of X df k_test;
        Ok (idx_train, idx_test)) (py_range n_splits)
  end.

(** *** What the statements below speak of *)

(** The timestamps [split] works on, when its check of the time source
    passes: those of a [DatetimeIndex], or of a column that is a [Series] of
    dtype [datetime64[ns]]. *)
Definition split_reads (self : MonthlySplit) (X : DataFrame) (data : list Timestamp) : Prop :=
  (time_col self = "index" ∧ ∃ tz, index X = DatetimeIndex tz data) ∨
  (time_col self ≠ "index" ∧
   getitem X (time_col self) = Ok (OneSeries (DatetimeSeries ns None data))).

(** The values [get_n_splits] iterates over. *)
Definition time_values (self : MonthlySplit) (X : DataFrame) : result (list scalar) :=
  if bool_decide (time_col self = "index") then Ok (index_values (index X))
  else c ← getitem X (time_col self); Ok (iterate c).

(** The month key of every timestamp. *)
Definition month_keys (data : list Timestamp) : list (Z * Z) :=
  (λ t, (year t, month t)) <$> data.

(** The positions of the rows with a given key, starting the count at [n],
    in row order. *)
Fixpoint positions_from (n : nat) (df : list (Z * Z)) (key : Z * Z) : list nat :=
  match df with
  | [] => []
  | k :: r => if decide (k = key) then n :: positions_from (S n) r key
              else positions_from (S n) r key
  end.

Definition rows_with (df : list (Z * Z)) (key : Z * Z) : list nat :=
  positions_from 0 df key.

(** Number of index entries equal to a label. *)
Definition matches (key : scalar) (values : list scalar) : nat :=
  length (filter (λ v, v = key) values).

(** How one side of a fold relates to the rows of its month: entry by entry,
    it is what [get_loc] returns for the index value of the row.  These are
    the positions of the rows when no index value is repeated; the entry of
    a row whose index value is repeated is a slice or a mask. *)
Definition located (X : DataFrame) (df : list (Z * Z)) (key : Z * Z) (locs : list loc) : Prop :=
  ∃ labels : list scalar,
    Forall2 (λ p v, index_values (index X) !! p = Some v) (rows_with df key) labels ∧
    Forall2 (λ v l, get_loc (index X) v = Ok l) labels locs ∧
    (NoDup (index_values (index X)) → locs = LocInt <$> rows_with df key) ∧
    (∀ (j : nat) (v : scalar) (l : loc),
       labels !! j = Some v → locs !! j = Some l →
       (2 ≤ matches v (index_values (index X)))%nat →
       (∃ start stop, l = LocSlice start stop) ∨ (∃ mask, l = LocMask mask)).

End Monthly.

(** ** Example data *)

Module Examples.
Import KNN.

Definition q (n : Z) : Qc := Q2Qc (inject_Z n).

(** Two training rows, at [1] and [-1], with labels [0] and [1]; the query
    [0] is at the same distance from both. *)
Definition tie_X : matrix := [[q 1]; [q (-1)]].
Definition tie_y : list Qc := [q 0; q 1].
Definition tie_clf : KNearestNeighbors :=
  {| n_neighbors := 1; X_ := Some tie_X; y_ := Some tie_y;
     n_features_in_ := Some 1%nat; classes_ := Some [q 0; q 1] |}.

(** The same row twice, with two labels. *)
Definition twin_X : matrix := [[q 0]; [q 0]].
Definition twin_y : list Qc := [q 0; q 1].
Definition twin_clf : KNearestNeighbors :=
  {| n_neighbors := 1; X_ := Some twin_X; y_ := Some twin_y;
     n_features_in_ := Some 1%nat; classes_ := Some [q 0; q 1] |}.

(** Four rows on a line with labels [2; 1; 1; 2], consulted four at a time. *)
Definition line_X : matrix := [[q 0]; [q 1]; [q 2]; [q 3]].
Definition line_y : list Qc := [q 2; q 1; q 1; q 2].
Definition line_clf : KNearestNeighbors :=
  {| n_neighbors := 4; X_ := Some line_X; y_ := Some line_y;
     n_features_in_ := Some 1%nat; classes_ := Some [q 1; q 2] |}.

(** Two rows, [10^8] and [10^8 + 1], whose squares differ in a bit that
    [float64] does not keep. *)
Definition near_X : matrix := [[q 100000000]; [q 100000001]].
Definition near_y : list Qc := [q 0; q 1].
Definition near_clf : KNearestNeighbors :=
  {| n_neighbors := 1; X_ := Some near_X; y_ := Some near_y;
     n_features_in_ := Some 1%nat; classes_ := Some [q 0; q 1] |}.

(** Three rows with three labels. *)
Definition third_X : matrix := [[q 0]; [q 1]; [q 2]].
Definition third_y : list Qc := [q 0; q 1; q 2].
Definition third_clf : KNearestNeighbors :=
  {| n_neighbors := 1; X_ := Some third_X; y_ := Some third_y;
     n_features_in_ := Some 1%nat; classes_ := Some [q 0; q 1; q 2] |}.

(** The rows of [tie_X] fitted with no neighbour to consult. *)
Definition none_clf : KNearestNeighbors :=
  {| n_neighbors := 0; X_ := Some tie_X; y_ := Some tie_y;
     n_features_in_ := Some 1%nat; classes_ := Some [q 0; q 1] |}.

(** Tables for the splitter. *)
Section Tables.
Import Monthly.

Definition date (y m d : Z) : Timestamp :=
  {| year := y; month := m; day := d; nanos := 0 |}.

Definition by_index : MonthlySplit := {| time_col := "index" |}.
Definition by_date : MonthlySplit := {| time_col := "date" |}.

(** Four days over three months, as the index. *)
Definition three_months : DataFrame :=
  {| index := DatetimeIndex None
                [date 2020 11 1; date 2020 11 2; date 2020 12 1; date 2021 1 5];
     columns := [] |}.

(** Two rows share a timestamp; the index is ascending. *)
Definition shared_timestamp : DataFrame :=
  {| index := DatetimeIndex None [date 2020 11 1; date 2020 11 1; date 2020 12 1];
     columns := [] |}.

(** Two rows share a timestamp; the index is not ascending. *)
Definition shared_timestamp_shuffled : DataFrame :=
  {| index := DatetimeIndex None [date 2020 12 1; date 2020 11 1; date 2020 11 1];
     columns := [] |}.

(** A [date] column of dtype [datetime64[ns]], not in chronological order,
    under an integer index. *)
Definition dated_rows : DataFrame :=
  {| index := Int64Index [10; 11; 12];
     columns := [("date", DatetimeSeries ns None
                            [date 2020 12 1; date 2020 11 1; date 2020 11 15])] |}.

(** A timezone-aware [date] column, all in one month. *)
Definition utc_one_month : DataFrame :=
  {| index := Int64Index [0; 1];
     columns := [("date", DatetimeSeries ns (Some "UTC")
                            [date 2020 11 1; date 2020 11 2])] |}.

(** A timezone-aware [date] column over two months. *)
Definition utc_two_months : DataFrame :=
  {| index := Int64Index [0; 1];
     columns := [("date", DatetimeSeries ns (Some "UTC")
                            [date 2020 11 1; date 2020 12 1])] |}.

(** A table without rows. *)
Definition no_rows : DataFrame := {| index := DatetimeIndex None []; columns := [] |}.

(** A [date] column holding text. *)
Definition text_dates : DataFrame :=
  {| index := Int64Index [0; 1];
     columns := [("date", ObjectSeries [Str "2020-11-01"; Str "2020-12-01"])] |}.

End Tables.

End Examples.

(** * Properties *)

(** ** Results *)

Lemma bind_Ok {A B} (m : result A) (f : A → result B) (b : B) :
  m ≫= f = Ok b ↔ ∃ a, m = Ok a ∧ f a = Ok b.
Proof.
  destruct m as [a|e]; simpl; split.
  - intros H. by exists a.
  - by intros (a' & [= <-] & H).
  - done.
  - by intros (a' & [=] & _).
Qed.

Lemma map_result_Ok {A B} (f : A → result B) (l : list A) (ys : list B) :
  map_result f l = Ok ys ↔ Forall2 (λ x y, f x = Ok y) l ys.
Proof.
  revert ys. induction l as [|x l IH]; intros ys; simpl.
  - split; [intros [= <-]; constructor | by inversion 1].
  - split.
    + intros (y & Hy & (ys' & Hys & [= <-])%bind_Ok)%bind_Ok.
      constructor; [done | by apply IH].
    + inversion 1 as [|? y ? ys' Hy Hys]; subst.
      apply bind_Ok. exists y. split; [done|].
      apply bind_Ok. exists ys'. split; [by apply IH | done].
Qed.

Lemma take_indices_Ok {A} (a : list A) (idx : list nat) (vs : list A) :
  take_indices a idx = Ok vs ↔ Forall2 (λ i v, a !! i = Some v) idx vs.
Proof.
  unfold take_indices. rewrite map_result_Ok.
  split; intros H; eapply Forall2_impl; try exact H; simpl; intros i v.
  - by destruct (a !! i); intros [=]; subst.
  - by intros ->.
Qed.

Lemma map_result_total {A B} (f : A → result B) (l : list A) :
  Forall (λ x, ∃ y, f x = Ok y) l → ∃ ys, map_result f l = Ok ys.
Proof.
  induction 1 as [|x l [y Hy] _ [ys Hys]]; simpl; [by eexists|].
  rewrite Hy. simpl. rewrite Hys. simpl. by eexists.
Qed.

Lemma take_indices_total {A} (a : list A) (idx : list nat) :
  Forall (λ i, (i < length a)%nat) idx → ∃ vs, take_indices a idx = Ok vs.
Proof.
  intros Hall. apply map_result_total.
  eapply Forall_impl; [exact Hall|]. intros i Hi. simpl.
  destruct (lookup_lt_is_Some_2 a i Hi) as [v ->]. by exists v.
Qed.

(** ** The counter *)

Section CounterFacts.
Context {A : Type} `{EqDecision A}.
Implicit Types (x y : A) (l : list A) (c : list (A * nat)).

Lemma occurrences_snoc x l z :
  occurrences x (l ++ [z]) = (occurrences x l + if decide (z = x) then 1 else 0)%nat.
Proof.
  unfold occurrences. rewrite filter_app, length_app. f_equal.
  rewrite filter_cons, filter_nil. by destruct (decide (z = x)).
Qed.

Lemma occurrences_pos x l : (0 < occurrences x l)%nat ↔ x ∈ l.
Proof.
  unfold occurrences. induction l as [|y l IH].
  - rewrite filter_nil. simpl. split; [lia | by intros ?%elem_of_nil].
  - rewrite filter_cons, elem_of_cons. destruct (decide (y = x)) as [->|Hne]; simpl.
    + split; [auto | lia].
    + rewrite IH. split; [auto | by intros [?|?]].
Qed.

Lemma Counter_snoc l z : Counter (l ++ [z]) = counter_incr z (Counter l).
Proof. unfold Counter. by rewrite foldl_app. Qed.

Lemma counter_incr_keys z c :
  (counter_incr z c).*1 = if decide (z ∈ c.*1) then c.*1 else c.*1 ++ [z].
Proof.
  induction c as [|[k n] c IH]; [done|].
  cbn [counter_incr]. rewrite fmap_cons. cbn [fst].
  destruct (decide (k = z)) as [->|Hne]; rewrite fmap_cons; cbn [fst].
  - destruct (decide (z ∈ z :: c.*1)) as [Hin|Hin]; [done|].
    exfalso. apply Hin. by left.
  - rewrite IH. destruct (decide (z ∈ c.*1)) as [Hin|Hnin].
    + destruct (decide (z ∈ k :: c.*1)) as [Hin'|Hin']; [done|].
      exfalso. apply Hin'. by right.
    + destruct (decide (z ∈ k :: c.*1)) as [Hin'|Hin']; [|done].
      apply elem_of_cons in Hin' as [->|?]; done.
Qed.

Lemma counter_incr_lookup z c i x n :
  NoDup c.*1 →
  counter_incr z c !! i = Some (x, n) →
  (x = z ∧ (c !! i = None ∧ n = 1%nat ∧ (z ∉ c.*1) ∧ i = length c
            ∨ ∃ m, c !! i = Some (z, m) ∧ n = S m))
  ∨ (x ≠ z ∧ c !! i = Some (x, n)).
Proof.
  revert i. induction c as [|[k m] c IH]; intros i Hnd; simpl.
  - destruct i as [|i]; simpl; [|done]. intros [= <- <-].
    left. split; [done|]. left. repeat split; try done. apply not_elem_of_nil.
  - apply NoDup_cons in Hnd as [Hk Hnd]. simpl in Hk.
    destruct (decide (k = z)) as [->|Hne].
    + destruct i as [|i]; simpl.
      * intros [= <- <-]. left. split; [done|]. right. by exists m.
      * intros Hi. right. split; [|done].
        intros ->. apply Hk. apply list_elem_of_fmap. exists (z, n).
        split; [done|]. by eapply list_elem_of_lookup_2.
    + destruct i as [|i]; simpl.
      * intros [= <- <-]. right. by split.
      * intros Hi. destruct (IH i Hnd Hi) as [[-> [(?&?&?&?)|(m'&?&?)]]|[? ?]].
        -- left. split; [done|]. left. repeat split; try done; [|by subst].
           intros [?|?]%elem_of_cons; simpl in *; done.
        -- left. split; [done|]. right. by exists m'.
        -- right. by split.
Qed.

Lemma Counter_counts l : counts_of l (Counter l).
Proof.
  induction l as [|z l IH] using rev_ind.
  - split; simpl.
    + constructor.
    + by intros x n ?%elem_of_nil.
    + by intros x ?%elem_of_nil.
    + by intros [] [].
  - rewrite Counter_snoc. destruct IH as [Hnd Hval Hdom Hord].
    assert (Hkeys := counter_incr_keys z (Counter l)).
    split.
    + rewrite Hkeys. case_decide; [done|].
      apply NoDup_app. split_and!; [done| |apply NoDup_singleton].
      intros x Hx ->%list_elem_of_singleton. done.
    + intros x n (i & Hi)%list_elem_of_lookup_1.
      rewrite occurrences_snoc.
      destruct (counter_incr_lookup _ _ _ _ _ Hnd Hi)
        as [[-> [(Hnone & -> & Hz & _)|(m & Hm & ->)]]|[Hne Hc]].
      * rewrite decide_True by done. split; [|lia].
        assert (occurrences z l = 0%nat); [|lia].
        destruct (decide (0 < occurrences z l)%nat) as [Hp|]; [|lia].
        apply occurrences_pos, Hdom in Hp. done.
      * rewrite decide_True by done.
        destruct (Hval z m) as [-> ?]; [by eapply list_elem_of_lookup_2|]. lia.
      * rewrite decide_False by done.
        destruct (Hval x n) as [-> ?]; [by eapply list_elem_of_lookup_2|]. lia.
    + intros x Hx. rewrite Hkeys.
      apply elem_of_app in Hx as [Hx| ->%list_elem_of_singleton].
      * destruct (decide (z ∈ (Counter l).*1)); [by apply Hdom|].
        apply elem_of_app. left. by apply Hdom.
      * destruct (decide (z ∈ (Counter l).*1)); [done|].
        apply elem_of_app. right. by apply list_elem_of_singleton.
    + intros i j x y n m Hij Hi Hj.
      assert (∀ p, (∃ v, l !! p = Some v) → ∀ q, (q ≤ p)%nat → (l ++ [z]) !! q = l !! q)
        as Hpre.
      { intros p [v Hv%lookup_lt_Some] q Hq. apply lookup_app_l. lia. }
      destruct (counter_incr_lookup _ _ _ _ _ Hnd Hi)
        as [[-> [(Hnone & -> & Hz & ->)|(n' & Hn' & ->)]]|[Hne Hci]].
      * apply lookup_lt_Some in Hj.
        assert (length (counter_incr z (Counter l)) = length (counter_incr z (Counter l)).*1)
          as Hlen by (by rewrite length_fmap).
        rewrite Hlen, Hkeys, decide_False, length_app, length_fmap in Hj by done.
        simpl in Hj. lia.
      * destruct (counter_incr_lookup _ _ _ _ _ Hnd Hj)
          as [[-> [(Hnone & -> & Hz & ->)|(m' & Hm' & ->)]]|[Hne Hcj]].
        -- exfalso. apply Hz. apply list_elem_of_fmap. exists (z, n').
           split; [done|]. by eapply list_elem_of_lookup_2.
        -- exfalso. assert (i = j); [|lia].
           eapply NoDup_lookup; [exact Hnd| |];
             rewrite list_lookup_fmap; [by rewrite Hn'|by rewrite Hm'].
        -- destruct (Hord i j z y n' m Hij Hn' Hcj) as (p & Hp & Hq).
           exists p. split; [by apply lookup_app_l_Some|].
           intros q Hle. rewrite (Hpre p); eauto.
      * destruct (counter_incr_lookup _ _ _ _ _ Hnd Hj)
          as [[-> [(Hnone & -> & Hz & ->)|(m' & Hm' & ->)]]|[Hne' Hcj]].
        -- assert (x ∈ l) as (p & Hp)%list_elem_of_lookup_1.
           { apply occurrences_pos. destruct (Hval x n) as [<- ?]; [|done].
             by eapply list_elem_of_lookup_2. }
           exists p. split; [by apply lookup_app_l_Some|].
           intros q Hle. rewrite (Hpre p) by eauto.
           intros Hq. apply Hz, Hdom. by eapply list_elem_of_lookup_2.
        -- destruct (Hord i j x z n m' Hij Hci Hm') as (p & Hp & Hq).
           exists p. split; [by apply lookup_app_l_Some|].
           intros q Hle. rewrite (Hpre p); eauto.
        -- destruct (Hord i j x y n m Hij Hci Hcj) as (p & Hp & Hq).
           exists p. split; [by apply lookup_app_l_Some|].
           intros q Hle. rewrite (Hpre p); eauto.
Qed.

Lemma py_max_by_count_first (pre : list (A * nat)) (best : A * nat) (r : list (A * nat)) :
  first_max pre best → first_max (pre ++ r) (py_max_by_count best r).
Proof.
  revert pre best. induction r as [|it r IH]; intros pre best Hbest; simpl.
  - by rewrite app_nil_r.
  - replace (pre ++ it :: r) with ((pre ++ [it]) ++ r) by (by rewrite <-app_assoc).
    apply IH. destruct Hbest as (i & Hi & Hmax & Hfirst).
    case_bool_decide as Hlt.
    + exists (length pre). split_and!.
      * by rewrite lookup_app_r, Nat.sub_diag by lia.
      * intros e [He| ->%list_elem_of_singleton]%elem_of_app; [|done].
        specialize (Hmax e He). lia.
      * intros j e Hj He. rewrite lookup_app_l in He by done.
        apply list_elem_of_lookup_2, Hmax in He. lia.
    + exists i. split_and!.
      * by apply lookup_app_l_Some.
      * intros e [He| ->%list_elem_of_singleton]%elem_of_app; [by apply Hmax|lia].
      * intros j e Hj He. apply (Hfirst j e Hj).
        rewrite lookup_app_l in He; [done|]. apply lookup_lt_Some in Hi. lia.
Qed.

Lemma most_common_1_first c :
  match most_common_1 c with
  | [] => c = []
  | b :: _ => first_max c b
  end.
Proof.
  destruct c as [|it r]; simpl; [done|].
  apply (py_max_by_count_first [it] it r).
  exists 0%nat. split_and!; [done| |intros; lia].
  by intros e ->%list_elem_of_singleton.
Qed.

(** What [most_common_label] returns: nothing for an empty array; otherwise
    a label of the array that no label outnumbers and that occurs before
    every other label with as many occurrences. *)
Lemma most_common_label_spec (array : list A) :
  (most_common_label array = None ↔ array = []) ∧
  ∀ v : A, most_common_label array = Some v →
    v ∈ array ∧
    (∀ v' : A, (occurrences v' array ≤ occurrences v array)%nat) ∧
    (∀ v' : A, v' ≠ v → occurrences v' array = occurrences v array →
       ∃ i, array !! i = Some v ∧ ∀ j, (j ≤ i)%nat → array !! j ≠ Some v').
Proof.
  unfold most_common_label.
  pose proof (Counter_counts array) as [Hnd Hval Hdom Hord].
  pose proof (most_common_1_first (Counter array)) as Hmc.
  destruct (most_common_1 (Counter array)) as [|[v n] rest].
  - assert (array = []) as ->.
    { destruct array as [|x array]; [done|].
      assert (x ∈ (Counter (x :: array)).*1) as Hx by (apply Hdom; by left).
      rewrite Hmc in Hx. by apply elem_of_nil in Hx. }
    split; [done|]. by intros v [=].
  - destruct Hmc as (i & Hi & Hmax & Hfirst). simpl in *.
    destruct (Hval v n) as [-> Hpos]; [by eapply list_elem_of_lookup_2|].
    split.
    { split; [done|]. intros ->. unfold occurrences in Hpos.
      rewrite filter_nil in Hpos. simpl in Hpos. lia. }
    intros ? [= <-]. split_and!.
    + by apply occurrences_pos.
    + intros v'. destruct (decide (v' ∈ array)) as [Hin|Hnin].
      * apply Hdom, list_elem_of_fmap in Hin as ([v'' m] & -> & Hm). simpl.
        destruct (Hval _ _ Hm) as [<- _]. apply (Hmax _ Hm).
      * destruct (decide (0 < occurrences v' array)%nat) as [Hp|]; [|lia].
        by apply occurrences_pos in Hp.
    + intros v' Hne Heq.
      assert (v' ∈ array) as Hin by (apply occurrences_pos; lia).
      apply Hdom, list_elem_of_fmap in Hin as ([v'' m] & -> & Hm). simpl in *.
      destruct (Hval _ _ Hm) as [-> _].
      apply list_elem_of_lookup_1 in Hm as (j & Hj).
      destruct (Nat.lt_trichotomy i j) as [Hij|[->|Hji]].
      * by apply (Hord i j _ _ _ _ Hij Hi Hj).
      * rewrite Hi in Hj. by injection Hj as ->.
      * specialize (Hfirst j _ Hji Hj). simpl in Hfirst. lia.
Qed.

End CounterFacts.

(** ** Distances *)

Module KNNFacts.
Import KNN.

Local Open Scope Qc_scope.

(** ** The order of [float64] keys *)

Lemma np_le_refl (a : np_float) : np_le a a.
Proof.
  destruct a as [p| | |]; unfold np_le; simpl; try done.
  apply bool_decide_eq_true, Qcle_refl.
Qed.

Lemma np_le_trans (a b c : np_float) : np_le a b → np_le b c → np_le a c.
Proof.
  destruct a as [p| | |], b as [q| | |], c as [r| | |]; unfold np_le; simpl; try done.
  rewrite !bool_decide_eq_true. apply Qcle_trans.
Qed.

Lemma np_lt_le (a b : np_float) : np_lt a b → np_le a b.
Proof.
  destruct a as [p| | |], b as [q| | |]; unfold np_lt, np_le; simpl; try done.
  rewrite bool_decide_eq_false, bool_decide_eq_true.
  intros H. by apply Qclt_le_weak, Qclt_nge.
Qed.

Lemma np_lt_not_le (a b : np_float) : np_lt a b → ¬ np_le b a.
Proof. unfold np_lt, np_le. congruence. Qed.

(** ** Rounding *)

Lemma canonical_id (v : Qc) : canonical v = v.
Proof.
  apply Qc_is_canon. unfold canonical. simpl. apply Qred_correct.
Qed.

Lemma round_half_even_bounds (n d bound : Z) :
  (0 < d)%Z → (0 ≤ n)%Z → (n ≤ bound * d)%Z →
  (0 ≤ round_half_even n d ∧ round_half_even n d ≤ bound)%Z.
Proof.
  intros Hd Hn Hb. unfold round_half_even.
  pose proof (Z.div_mod n d ltac:(lia)) as Hdm.
  pose proof (Z.mod_pos_bound n d Hd) as Hmod.
  assert (0 ≤ n `div` d)%Z as Hfl by (apply Z.div_pos; lia).
  assert (n `div` d ≤ bound)%Z as Hle by nia.
  repeat case_bool_decide; try destruct (Z.even _); split; try lia; nia.
Qed.

Lemma pow2_neg_bounds (m k : Z) :
  (0 < k)%Z → (0 ≤ m)%Z → (m ≤ 2 ^ k)%Z →
  0 ≤ Qc_of_Z m * pow2 (- k) ∧ Qc_of_Z m * pow2 (- k) ≤ 1.
Proof.
  intros Hk Hm Hle. unfold pow2. rewrite bool_decide_false by lia.
  rewrite Z.opp_involutive.
  assert (0 < Qc_of_Z (2 ^ k)) as Hpos.
  { rewrite <-Z2Qc_inj_0. apply (proj1 (Z2Qc_inj_lt _ _)). by apply Z.pow_pos_nonneg; lia. }
  assert (Qc_of_Z (2 ^ k) ≠ 0) as Hnz.
  { intros H0. rewrite H0 in Hpos. by apply Qclt_not_eq in Hpos. }
  assert (Qc_of_Z m * / Qc_of_Z (2 ^ k) * Qc_of_Z (2 ^ k) = Qc_of_Z m) as Hmul.
  { rewrite <-Qcmult_assoc, (Qcmult_comm (/ _)), Qcmult_inv_r by done. ring. }
  split; apply (Qcmult_lt_0_le_reg_r _ _ _ Hpos); rewrite Hmul.
  - rewrite Qcmult_0_l, <-Z2Qc_inj_0. by apply (proj1 (Z2Qc_inj_le _ _)).
  - rewrite Qcmult_1_l. by apply (proj1 (Z2Qc_inj_le _ _)).
Qed.

(** Rounding keeps a number of the unit interval in the unit interval. *)
Lemma round64_unit (q : Qc) :
  0 ≤ q → q ≤ 1 → ∃ v, round64 q = Finite v ∧ 0 ≤ v ∧ v ≤ 1.
Proof.
  intros H0 H1. unfold round64.
  assert (0 ≤ Qnum (this q))%Z as Hn.
  { unfold Qcle, Qle in H0. simpl in H0. lia. }
  assert (Qnum (this q) ≤ Z.pos (Qden (this q)))%Z as Hnd.
  { unfold Qcle, Qle in H1. simpl in H1. lia. }
  case_bool_decide as Hz; [by exists 0|].
  rewrite bool_decide_true by lia.
  set (n := Qnum (this q)) in *. set (d := Z.pos (Qden (this q))) in *.
  assert (0 < d)%Z as Hd by (unfold d; lia).
  unfold round64_pos.
  set (e0 := (Z.log2 n - Z.log2 d)%Z).
  assert (e0 ≤ 0)%Z as He0.
  { unfold e0. pose proof (Z.log2_le_mono n d Hnd). lia. }
  set (e := if bool_decide (0 ≤ e0)%Z
            then (if bool_decide (d * 2 ^ e0 ≤ n)%Z then e0 else e0 - 1)%Z
            else (if bool_decide (d ≤ n * 2 ^ (- e0))%Z then e0 else e0 - 1)%Z).
  assert (e ≤ 0)%Z as He.
  { unfold e. repeat case_bool_decide; lia. }
  set (ex := (Z.max e (-1022) - 52)%Z).
  assert (ex < 0)%Z as Hex by (unfold ex; lia).
  rewrite (bool_decide_false (0 ≤ ex)%Z) by lia. simpl.
  set (m := round_half_even (n * 2 ^ (- ex)) d).
  assert (0 ≤ m ∧ m ≤ 2 ^ (- ex))%Z as [Hm0 Hm1].
  { apply round_half_even_bounds; [done| |].
    - apply Z.mul_nonneg_nonneg; [lia|]. apply Z.pow_nonneg. lia.
    - rewrite (Z.mul_comm _ d). apply Z.mul_le_mono_nonneg_r; [|done].
      apply Z.pow_nonneg. lia. }
  exists (canonical (Qc_of_Z m * pow2 ex)). split; [done|].
  rewrite canonical_id. replace ex with (- - ex)%Z by lia.
  apply pow2_neg_bounds; [lia|done|done].
Qed.

(** ** Validation *)

Lemma check_array_Ok (X X' : matrix) :
  check_array X = Ok X' ↔
  X' = X ∧ X ≠ [] ∧ n_columns X ≠ 0%nat ∧ Forall (λ r, length r = n_columns X) X.
Proof.
  unfold check_array. destruct X as [|r rs]; simpl.
  - split; [done | by intros (_ & ? & _)].
  - destruct (forallb (λ r', bool_decide (length r' = length r)) rs) eqn:Hall; simpl.
    + apply Is_true_true, forallb_True in Hall.
      case_bool_decide as Hr.
      * split; [done | by intros (_ & _ & ? & _)].
      * split.
        -- intros [= <-]. split_and!; try done. constructor; [done|].
           eapply Forall_impl; [exact Hall|]. intros r'. simpl.
           by intros ?%bool_decide_unpack.
        -- by intros (-> & _).
    + split; [done|]. intros (_ & _ & _ & Hf). apply Forall_cons in Hf as [_ Hf].
      assert (forallb (λ r', bool_decide (length r' = length r)) rs = true); [|congruence].
      apply Is_true_true, forallb_True.
      eapply Forall_impl; [exact Hf|]. intros r' ?. by apply bool_decide_pack.
Qed.

Lemma check_array_cases (X : matrix) :
  check_array X = Ok X ∨
  ∃ msg, check_array X = Raise (ValueError msg) ∧
         msg ∈ [msg_not_2d; msg_ragged; msg_no_feature].
Proof.
  unfold check_array. destruct X as [|r rs].
  - right. eexists. split; [done|]. set_solver.
  - destruct (negb _).
    + right. eexists. split; [done|]. set_solver.
    + case_bool_decide.
      * right. eexists. split; [done|]. set_solver.
      * by left.
Qed.

Lemma check_X_y_Ok (X : matrix) (y : list Qc) X' y' :
  check_X_y X y = Ok (X', y') ↔
  X' = X ∧ y' = y ∧ check_array X = Ok X ∧ length X = length y.
Proof.
  unfold check_X_y. rewrite bind_Ok. split.
  - intros (X0 & HX & H).
    pose proof HX as (-> & _)%check_array_Ok.
    case_bool_decide; [|done]. by injection H as <- <-.
  - intros (-> & -> & HX & Hlen). exists X. split; [done|].
    by rewrite bool_decide_true.
Qed.

Lemma check_classification_targets_Ok (y : list Qc) :
  check_classification_targets y = Ok () ↔ Forall (λ q, integral q = true) y.
Proof.
  unfold check_classification_targets.
  destruct (forallb integral y) eqn:Hall.
  - split; [|done]. intros _. apply Is_true_true, forallb_True in Hall.
    eapply Forall_impl; [exact Hall|]. intros q. apply Is_true_true.
  - split; [done|]. intros Hf.
    assert (forallb integral y = true); [|congruence].
    apply Is_true_true, forallb_True.
    eapply Forall_impl; [exact Hf|]. intros q. apply Is_true_true.
Qed.

(** ** What [fit] leaves behind *)

Lemma fit_Ok (X : matrix) (y : list Qc) (self self' : KNearestNeighbors) :
  fit X y self = (self', Ok ()) ↔
  check_array X = Ok X ∧ length X = length y ∧
  check_classification_targets y = Ok () ∧
  self' = {| n_neighbors := n_neighbors self; X_ := Some X; y_ := Some y;
             n_features_in_ := Some (n_columns X); classes_ := Some (np_unique y) |}.
Proof.
  unfold fit, then_, call.
  destruct (check_X_y X y) as [[X' y']|e] eqn:Hxy.
  - apply check_X_y_Ok in Hxy as (-> & -> & HX & Hlen).
    destruct (check_classification_targets y) as [[]|e] eqn:Hy; simpl.
    + split; [intros [= <-]; by split_and! | by intros (_ & _ & _ & ->)].
    + split; [done | by intros (_ & _ & ? & _)].
  - split; [done|]. intros (HX & Hlen & _).
    assert (check_X_y X y = Ok (X, y)) by (by apply check_X_y_Ok). congruence.
Qed.

End KNNFacts.

(** ** The two insertion sorts are rankings [np.argsort] may return *)

Module ArgsortFacts.
Import KNN KNNFacts Argsort.

Lemma StronglySorted_lookup {A} (R : relation A) (l : list A) (i j : nat) (x y : A) :
  StronglySorted R l → (i < j)%nat → l !! i = Some x → l !! j = Some y → R x y.
Proof.
  intros Hs. revert i j. induction Hs as [|z l Hs IH Hz]; intros i j Hij Hi Hj.
  - done.
  - destruct j as [|j]; [lia|]. simpl in Hj. destruct i as [|i]; simpl in Hi.
    + injection Hi as <-. eapply Forall_forall; [exact Hz|].
      by eapply list_elem_of_lookup_2.
    + apply (IH i j); [lia|done|done].
Qed.

Section Insertion.
Variable before : np_float → np_float → bool.
Hypothesis before_true : ∀ a b, before a b = true → np_le a b.
Hypothesis before_false : ∀ a b, before a b = false → np_le b a.

Lemma insert_entry_perm p l : insert_entry before p l ≡ₚ p :: l.
Proof.
  induction l as [|q l IH]; simpl; [done|].
  destruct (before p.2 q.2); [done|]. rewrite IH. apply Permutation_swap.
Qed.

Lemma insert_entry_sorted p l :
  StronglySorted ascending l → StronglySorted ascending (insert_entry before p l).
Proof.
  induction 1 as [|q l Hs IH Hq]; simpl.
  - repeat constructor.
  - destruct (before p.2 q.2) eqn:Hb.
    + constructor; [by constructor|]. apply before_true in Hb.
      constructor; [done|]. eapply Forall_impl; [exact Hq|].
      intros r Hr. unfold ascending in *. by apply np_le_trans with q.2.
    + constructor; [done|]. apply before_false in Hb.
      rewrite insert_entry_perm. by constructor.
Qed.

Lemma insertion_perm (entries : list (nat * np_float)) :
  foldr (insert_entry before) [] entries ≡ₚ entries.
Proof.
  induction entries as [|p l IH]; simpl; [done|].
  by rewrite insert_entry_perm, IH.
Qed.

Lemma insertion_sorted (entries : list (nat * np_float)) :
  StronglySorted ascending (foldr (insert_entry before) [] entries).
Proof.
  induction entries as [|p l IH]; simpl; [constructor|].
  by apply insert_entry_sorted.
Qed.

Lemma insertion_entry (s : nat) (keys : list np_float) (n c : nat) (k : np_float) :
  foldr (insert_entry before) [] (zip (seq s (length keys)) keys) !! n = Some (c, k) →
  (s ≤ c)%nat ∧ keys !! (c - s)%nat = Some k.
Proof.
  intros Hn. apply list_elem_of_lookup_2 in Hn. rewrite insertion_perm in Hn.
  apply list_elem_of_lookup_1 in Hn as (m & Hm).
  apply lookup_zip_Some in Hm as [Hc Hk].
  apply lookup_seq in Hc as [-> _]. split; [lia|].
  by replace (s + m - s)%nat with m by lia.
Qed.

Lemma argsort_by_lookup (keys : list np_float) (i a : nat) :
  argsort_by before keys !! i = Some a →
  ∃ ka, foldr (insert_entry before) [] (zip (seq 0 (length keys)) keys) !! i = Some (a, ka)
        ∧ keys !! a = Some ka.
Proof.
  unfold argsort_by. rewrite list_lookup_fmap.
  destruct (foldr _ _ _ !! i) as [[a' ka]|] eqn:Hi; [|done].
  intros [= <-]. exists ka. split; [done|].
  apply insertion_entry in Hi as [_ Hi]. by rewrite Nat.sub_0_r in Hi.
Qed.

Lemma argsort_by_sorts : sorts (argsort_by before).
Proof.
  split.
  - intros keys. unfold argsort_by. rewrite insertion_perm.
    by rewrite fst_zip by (by rewrite length_seq).
  - intros keys i j a b ka kb Hij Hi Hj Ha Hb.
    apply argsort_by_lookup in Hi as (ka' & Hi & Hka).
    apply argsort_by_lookup in Hj as (kb' & Hj & Hkb).
    assert (ka' = ka) as -> by congruence. assert (kb' = kb) as -> by congruence.
    destruct (decide (i = j)) as [->|Hne].
    + assert (ka = kb) as -> by congruence. apply np_le_refl.
    + eapply (StronglySorted_lookup ascending _ i j (a, ka) (b, kb));
        [apply insertion_sorted | lia | exact Hi | exact Hj].
Qed.

End Insertion.

Lemma argsort_stable_sorts : sorts argsort_stable.
Proof.
  apply argsort_by_sorts.
  - intros a b Hb. exact Hb.
  - intros a b Hb. by apply np_lt_le.
Qed.

Lemma argsort_reversing_sorts : sorts argsort_reversing.
Proof.
  apply argsort_by_sorts.
  - intros a b Hb. apply negb_true_iff in Hb. by apply np_lt_le.
  - intros a b Hb. by apply negb_false_iff in Hb.
Qed.

End ArgsortFacts.

(** ** The estimator *)

Module Estimator.
Import KNN KNNFacts.

Local Open Scope Qc_scope.

Lemma slice_to_prefix {A} (l : list A) (k : Z) : ∃ m, slice_to l k = take m l.
Proof. unfold slice_to. case_bool_decide; eauto. Qed.

Lemma slice_to_nonneg {A} (l : list A) (k : Z) :
  (0 ≤ k)%Z → slice_to l k = take (Z.to_nat k) l.
Proof. intros Hk. unfold slice_to. by rewrite bool_decide_true. Qed.

Section Predict.
Variable distance : vector → vector → np_float.
Variable argsort : list np_float → list nat.

Lemma predict_Ok (self : KNearestNeighbors) (X : matrix) (ys : list (option Qc)) :
  predict distance argsort self X = Ok ys →
  ∃ Xt yt, X_ self = Some Xt ∧ y_ self = Some yt ∧
           check_array X = Ok X ∧ n_columns X = n_columns Xt ∧
           Forall2 (predicted distance argsort self Xt yt) X ys.
Proof.
  unfold predict. intros (_ & _ & H)%bind_Ok.
  apply bind_Ok in H as (X' & HX & H). pose proof HX as (-> & Hne & _)%check_array_Ok.
  apply bind_Ok in H as (Xt & HXt & H).
  apply bind_Ok in H as (D & HD & H).
  unfold pairwise_distances in HD. case_bool_decide as Hcols; [|done].
  injection HD as <-.
  unfold closest_rows in H. rewrite map_result_Ok, !Forall2_fmap_l in H.
  destruct (X_ self) as [Xt'|] eqn:HXs; [|done]. injection HXt as ->.
  destruct (y_ self) as [yt|] eqn:Hys.
  - exists Xt, yt. split_and!; try done.
    eapply Forall2_impl; [exact H|]. intros x y_hat Hx. simpl in Hx.
    apply bind_Ok in Hx as (labels & Hl & [= <-]). by exists labels.
  - destruct H as [|x y_hat ? ? Hx _]; [done|]. done.
Qed.

Section Ranked.
Hypothesis argsort_sorts : Argsort.sorts argsort.

Lemma ranking_perm (Xt : matrix) (x : vector) :
  ranking distance argsort Xt x ≡ₚ seq 0 (length Xt).
Proof.
  unfold ranking. rewrite (Argsort.sorts_perm _ argsort_sorts).
  by rewrite length_fmap.
Qed.

Lemma ranking_elem (Xt : matrix) (x : vector) (a : nat) :
  a ∈ ranking distance argsort Xt x ↔ (a < length Xt)%nat.
Proof. rewrite ranking_perm, elem_of_seq. lia. Qed.

Lemma ranking_ascending (Xt : matrix) (x : vector) (i j a b : nat) (xa xb : vector) :
  (i ≤ j)%nat →
  ranking distance argsort Xt x !! i = Some a → ranking distance argsort Xt x !! j = Some b →
  Xt !! a = Some xa → Xt !! b = Some xb →
  np_le (distance x xa) (distance x xb).
Proof.
  intros Hij Hi Hj Ha Hb.
  apply (Argsort.sorts_ascending _ argsort_sorts (distance x <$> Xt) i j a b);
    [exact Hij | exact Hi | exact Hj | |];
    rewrite list_lookup_fmap; [by rewrite Ha | by rewrite Hb].
Qed.

(** A consulted row is at most as far from the query as a row left out. *)
Lemma consulted_nearest (self : KNearestNeighbors) (Xt : matrix) (x : vector)
    (a b : nat) (xa xb : vector) :
  a ∈ consulted distance argsort self Xt x → b ∉ consulted distance argsort self Xt x →
  Xt !! a = Some xa → Xt !! b = Some xb →
  np_le (distance x xa) (distance x xb).
Proof.
  unfold consulted. destruct (slice_to_prefix (ranking distance argsort Xt x) (n_neighbors self))
    as [m ->].
  intros (i & Hi & Him)%elem_of_take Hb Ha Hxb.
  assert (b ∈ ranking distance argsort Xt x) as (j & Hj)%list_elem_of_lookup_1.
  { apply ranking_elem. by eapply lookup_lt_Some. }
  apply (ranking_ascending Xt x i j a b); try done.
  destruct (decide (j < m)%nat) as [Hjm|]; [|lia].
  exfalso. apply Hb, elem_of_take. eauto.
Qed.

Lemma predict_total (self0 self : KNearestNeighbors) (Xt : matrix) (yt : list Qc)
    (X : matrix) :
  fit Xt yt self0 = (self, Ok ()) →
  check_array X = Ok X → n_columns X = n_columns Xt →
  ∃ ys, predict distance argsort self X = Ok ys ∧ Forall2 (predicted distance argsort self Xt yt) X ys.
Proof.
  intros (HXt & Hlen & Hyt & ->)%fit_Ok HX Hcols.
  set (self := {| n_neighbors := n_neighbors self0; X_ := Some Xt; y_ := Some yt;
                  n_features_in_ := Some (n_columns Xt);
                  classes_ := Some (np_unique yt) |}).
  assert (∃ ys, predict distance argsort self X = Ok ys) as [ys Hys].
  { unfold predict. simpl. rewrite HX. simpl.
    unfold pairwise_distances. rewrite bool_decide_true by done. simpl.
    apply map_result_total. unfold closest_rows.
    rewrite !Forall_fmap. apply Forall_true. intros x. simpl.
    destruct (take_indices_total yt (consulted distance argsort self Xt x)) as [labels Hl].
    { apply Forall_forall. intros a Ha. rewrite <-Hlen. apply (ranking_elem Xt x).
      unfold consulted in Ha.
      destruct (slice_to_prefix (ranking distance argsort Xt x) (n_neighbors self)) as [m Hm].
      rewrite Hm in Ha. by apply elem_of_take in Ha as (i & ?%list_elem_of_lookup_2 & _). }
    unfold consulted, ranking in Hl. simpl in Hl. rewrite Hl. simpl. by eexists. }
  exists ys. split; [done|].
  apply predict_Ok in Hys as (Xt' & yt' & [= <-] & [= <-] & _ & _ & Hall). done.
Qed.

(** With one neighbour, the prediction is the label of the first-ranked row,
    and no training row is nearer to the query. *)
Lemma predicted_first_ranked (self : KNearestNeighbors) (Xt : matrix) (yt : list Qc)
    (x : vector) (y_hat : option Qc) :
  Xt ≠ [] → length Xt = length yt → n_neighbors self = 1%Z →
  predicted distance argsort self Xt yt x y_hat →
  ∃ (a : nat) (xa : vector) (ya : Qc),
    ranking distance argsort Xt x !! 0%nat = Some a ∧
    consulted distance argsort self Xt x = [a] ∧
    Xt !! a = Some xa ∧ yt !! a = Some ya ∧ y_hat = Some ya ∧
    ∀ xb, xb ∈ Xt → np_le (distance x xa) (distance x xb).
Proof.
  intros Hne Hlen Hk Hpred.
  destruct (ranking distance argsort Xt x) as [|a r] eqn:Hr.
  { pose proof (ranking_perm Xt x) as Hp. rewrite Hr in Hp.
    apply Permutation_length in Hp. rewrite length_seq in Hp.
    destruct Xt; [done | simpl in Hp; lia]. }
  assert (consulted distance argsort self Xt x = [a]) as Hc.
  { unfold consulted. by rewrite Hk, Hr. }
  assert (a < length Xt)%nat as Ha.
  { apply (ranking_elem Xt x). rewrite Hr. by left. }
  destruct (lookup_lt_is_Some_2 Xt a Ha) as [xa Hxa].
  rewrite Hlen in Ha. destruct (lookup_lt_is_Some_2 yt a Ha) as [ya Hya].
  exists a, xa, ya. split_and!; try done.
  - destruct Hpred as (labels & Hl & ->). rewrite Hc in Hl.
    unfold take_indices in Hl. simpl in Hl. rewrite Hya in Hl. simpl in Hl.
    by injection Hl as <-.
  - intros xb (b & Hb)%list_elem_of_lookup_1.
    assert (b ∈ ranking distance argsort Xt x) as (j & Hj)%list_elem_of_lookup_1.
    { apply ranking_elem. by eapply lookup_lt_Some. }
    apply (ranking_ascending Xt x 0%nat j a b); try done; [lia|].
    by rewrite Hr.
Qed.

(** C1 (as amended).  For a fitted classifier and a well-formed query
    matrix, [predict] returns one label per query row, and for each query
    row: the ranking [np.argsort] gives lists every training row once, in
    ascending order of the distances computed for the query (float64, NaN
    last); the rows consulted are the first [k] rows of that ranking, the
    computed distance of each at most that of any row left out; the
    prediction is the most common label among their labels; and for [k = 1]
    the label returned is the label of the first-ranked row, a training row
    whose computed distance is minimal.  How rows at equal computed distance
    are ordered is left to the sort. *)
Theorem predict_consults_first_k_ascending
    (self0 self : KNearestNeighbors) (Xt : matrix) (yt : list Qc) (X : matrix) :
  fit Xt yt self0 = (self, Ok ()) →
  check_array X = Ok X → n_columns X = n_columns Xt →
  ∃ ys, predict distance argsort self X = Ok ys ∧
    Forall2 (λ x y_hat,
      ranking distance argsort Xt x ≡ₚ seq 0 (length Xt) ∧
      (∀ (i j a b : nat) (xa xb : vector), (i ≤ j)%nat →
         ranking distance argsort Xt x !! i = Some a → ranking distance argsort Xt x !! j = Some b →
         Xt !! a = Some xa → Xt !! b = Some xb →
         np_le (distance x xa) (distance x xb)) ∧
      ((0 ≤ n_neighbors self)%Z →
         consulted distance argsort self Xt x
         = take (Z.to_nat (n_neighbors self)) (ranking distance argsort Xt x)) ∧
      (∀ (a b : nat) (xa xb : vector),
         a ∈ consulted distance argsort self Xt x → b ∉ consulted distance argsort self Xt x →
         Xt !! a = Some xa → Xt !! b = Some xb →
         np_le (distance x xa) (distance x xb)) ∧
      predicted distance argsort self Xt yt x y_hat ∧
      (n_neighbors self = 1%Z →
         ∃ (a : nat) (xa : vector) (ya : Qc),
           ranking distance argsort Xt x !! 0%nat = Some a ∧
           consulted distance argsort self Xt x = [a] ∧
           Xt !! a = Some xa ∧ yt !! a = Some ya ∧ y_hat = Some ya ∧
           ∀ xb, xb ∈ Xt → np_le (distance x xa) (distance x xb))) X ys.
Proof.
  intros Hfit HX Hcols.
  destruct (predict_total self0 self Xt yt X Hfit HX Hcols) as (ys & Hys & Hall).
  exists ys. split; [done|].
  apply fit_Ok in Hfit as (HXt & Hlen & _ & Hself).
  eapply Forall2_impl; [exact Hall|]. intros x y_hat Hpred.
  split_and!.
  - apply ranking_perm.
  - apply ranking_ascending.
  - apply slice_to_nonneg.
  - apply consulted_nearest.
  - done.
  - intros Hk. apply check_array_Ok in HXt as (_ & Hne & _).
    by apply predicted_first_ranked.
Qed.

(** C4.  For a fitted classifier and a well-formed query matrix, [predict]
    returns one label per query row, and nothing else for the same inputs.
    For each query row the labels counted are those of the consulted rows,
    read in ranking order; the label returned occurs among them, no label
    occurs more often, and every other label with as many occurrences first
    occurs later in that order (none is returned only when no row is
    consulted). *)
Theorem predict_first_encountered_wins
    (self0 self : KNearestNeighbors) (Xt : matrix) (yt : list Qc) (X : matrix) :
  fit Xt yt self0 = (self, Ok ()) →
  check_array X = Ok X → n_columns X = n_columns Xt →
  ∃ ys, predict distance argsort self X = Ok ys ∧
    (∀ ys', predict distance argsort self X = Ok ys' → ys' = ys) ∧
    Forall2 (λ x y_hat,
      ∃ labels : list Qc,
        Forall2 (λ a v, yt !! a = Some v) (consulted distance argsort self Xt x) labels ∧
        (y_hat = None ↔ labels = []) ∧
        ∀ v : Qc, y_hat = Some v →
          v ∈ labels ∧
          (∀ v' : Qc, (occurrences v' labels ≤ occurrences v labels)%nat) ∧
          (∀ v' : Qc, v' ≠ v → occurrences v' labels = occurrences v labels →
             ∃ i, labels !! i = Some v ∧
                  ∀ j, (j ≤ i)%nat → labels !! j ≠ Some v')) X ys.
Proof.
  intros Hfit HX Hcols.
  destruct (predict_total self0 self Xt yt X Hfit HX Hcols) as (ys & Hys & Hall).
  exists ys. split_and!; [done | congruence |].
  eapply Forall2_impl; [exact Hall|]. intros x y_hat (labels & Hl & ->).
  exists labels. split; [by apply take_indices_Ok|].
  apply most_common_label_spec.
Qed.

Lemma round64_one : round64 1 = Finite 1.
Proof. vm_compute. reflexivity. Qed.

Lemma mean_all_true (n : nat) :
  n ≠ 0%nat → mean (replicate n true) = Finite 1.
Proof.
  intros Hn. unfold mean. destruct n as [|n]; [done|].
  change (replicate (S n) true) with (true :: replicate n true) at 1.
  assert (filter (λ x, x = true) (replicate (S n) true) = replicate (S n) true) as ->.
  { generalize (S n). intros m. induction m as [|m IH]; [done|].
    simpl. rewrite filter_cons. simpl. by rewrite IH. }
  rewrite <-round64_one. f_equal.
  apply Qcmult_inv_r. unfold Qc_of_nat.
  rewrite <-Z2Qc_inj_0. intros H%Z2Qc_inj. rewrite length_replicate in H. lia.
Qed.

Lemma np_equal_same (y : list Qc) :
  np_equal y (Some <$> y) = Ok (replicate (length y) true).
Proof.
  unfold np_equal. rewrite bool_decide_true by (by rewrite length_fmap).
  f_equal. induction y as [|a y IH]; [done|].
  rewrite fmap_cons. cbn [zip_with length replicate].
  by rewrite IH, bool_decide_true.
Qed.

(** C5 (as amended).  With one neighbour, scoring a fitted classifier on its
    own training data gives exactly 1, provided that for every training row
    [x], each training row whose computed distance from [x] is at most the
    computed distance of [x] from itself carries the label of [x]. *)
Theorem score_training_data_one_neighbor
    (self0 self : KNearestNeighbors) (X : matrix) (y : list Qc) :
  n_neighbors self0 = 1%Z →
  fit X y self0 = (self, Ok ()) →
  (∀ (i j : nat) (xi xj : vector) (yi yj : Qc),
     X !! i = Some xi → X !! j = Some xj → y !! i = Some yi → y !! j = Some yj →
     np_le (distance xi xj) (distance xi xi) → yj = yi) →
  score distance argsort self X y = Ok (Finite 1).
Proof.
  intros Hk Hfit Hlabels.
  pose proof Hfit as (HX & Hlen & Hy & Hself)%fit_Ok.
  destruct (predict_total self0 self X y X Hfit HX eq_refl) as (ys & Hys & Hall).
  pose proof HX as (_ & Hne & _ & Hrect)%check_array_Ok.
  assert (n_neighbors self = 1%Z) as Hk' by (by rewrite Hself).
  assert (ys = Some <$> y) as ->.
  { apply list_eq. intros i. rewrite list_lookup_fmap.
    destruct (X !! i) as [x|] eqn:Hx.
    - destruct (Forall2_lookup_l _ _ _ _ _ Hall Hx) as (y_hat & Hyi & Hpred).
      rewrite Hyi.
      destruct (predicted_first_ranked self X y x y_hat Hne Hlen Hk' Hpred)
        as (a & xa & ya & _ & _ & Hxa & Hya & -> & Hmin).
      destruct (y !! i) as [yi|] eqn:Hyi'.
      + simpl. do 2 f_equal. apply (Hlabels i a x xa yi ya Hx Hxa Hyi' Hya).
        apply Hmin. by eapply list_elem_of_lookup_2.
      + apply lookup_lt_Some in Hx. apply lookup_ge_None in Hyi'. lia.
    - apply lookup_ge_None in Hx.
      rewrite (proj2 (lookup_ge_None ys i)), (proj2 (lookup_ge_None y i)); try done; [lia|].
      apply Forall2_length in Hall. lia. }
  unfold score. rewrite Hy. simpl. rewrite Hys. simpl.
  rewrite np_equal_same. simpl. f_equal. apply mean_all_true.
  rewrite <-Hlen. by destruct X.
Qed.

End Ranked.


(** C6.  On an instance without fitted attributes [predict] raises
    [NotFittedError]; after a successful [fit], on a query matrix whose number
    of columns is not the recorded [n_features_in_], it raises a [ValueError]
    (the dimension mismatch itself when the query is a well-formed matrix).
    Either way the outcome is the exception: no list of labels is returned. *)
Theorem predict_raises_not_fitted_or_dimension (X : matrix) :
  (∀ self : KNearestNeighbors,
     X_ self = None → y_ self = None →
     n_features_in_ self = None → classes_ self = None →
     predict distance argsort self X = Raise NotFittedError) ∧
  (∀ (self0 self : KNearestNeighbors) (Xt : matrix) (yt : list Qc),
     fit Xt yt self0 = (self, Ok ()) →
     n_features_in_ self = Some (n_columns Xt) ∧
     (n_columns X ≠ n_columns Xt →
      ∃ msg, predict distance argsort self X = Raise (ValueError msg) ∧
             (check_array X = Ok X → msg = msg_dimension))).
Proof.
  split.
  - intros self HX Hy Hn Hc. unfold predict, check_is_fitted.
    by rewrite HX, Hy, Hn, Hc.
  - intros self0 self Xt yt (_ & _ & _ & ->)%fit_Ok. split; [done|].
    intros Hcols. unfold predict. simpl.
    destruct (check_array_cases X) as [HX|(msg & HX & _)]; rewrite HX; simpl.
    + unfold pairwise_distances. rewrite bool_decide_false by done. simpl.
      by exists msg_dimension.
    + exists msg. by split.
Qed.

End Predict.

(** C8.  [fit] writes nothing when it raises.  On malformed shapes it
    raises the [ValueError] of the shape validation, and on well-formed
    shapes with a label that is not integral the [ValueError] of the target
    check; in both cases, and whenever it raises at all, the instance is
    left exactly as it was. *)
Theorem fit_raises_before_writing (self : KNearestNeighbors) (X : matrix) (y : list Qc) :
  (malformed X y →
     ∃ msg, msg ∈ [msg_not_2d; msg_ragged; msg_no_feature; msg_inconsistent] ∧
            fit X y self = (self, Raise (ValueError msg))) ∧
  (¬ malformed X y → Exists (λ q, integral q = false) y →
     fit X y self = (self, Raise (ValueError msg_label_type))) ∧
  (∀ (self' : KNearestNeighbors) (e : exn),
     fit X y self = (self', Raise e) → self' = self).
Proof.
  split_and!.
  - intros Hbad. unfold fit, then_, call, check_X_y.
    destruct (check_array_cases X) as [HX|(msg & HX & Hmsg)]; rewrite HX; simpl.
    + apply check_array_Ok in HX as (_ & Hne & Hcols & Hrect).
      destruct Hbad as [?|[(r & r' & Hr & Hr' & Hrr')|[(r & Hr & Hr0)|Hlen]]].
      * done.
      * rewrite Forall_forall in Hrect.
        rewrite (Hrect r Hr), (Hrect r' Hr') in Hrr'. done.
      * rewrite Forall_forall in Hrect. rewrite (Hrect r Hr) in Hr0. done.
      * rewrite bool_decide_false by done. simpl.
        exists msg_inconsistent. split; [|done]. rewrite !elem_of_cons. tauto.
    + exists msg. split; [|done]. revert Hmsg. rewrite !elem_of_cons. tauto.
  - intros Hgood Hy. unfold fit, then_, call.
    assert (check_X_y X y = Ok (X, y)) as ->.
    { apply check_X_y_Ok. split_and!; try done.
      - apply check_array_Ok. split; [done|].
        assert (X ≠ []) as Hne by (intros ->; apply Hgood; by left).
        destruct X as [|r rs]; [done|]. simpl. split_and!; [done| |].
        + intros Hr. apply Hgood. right. right. left. exists r. split; [by left|done].
        + apply Forall_forall. intros r' Hr'.
          destruct (decide (length r' = length r)) as [|Hrr']; [done|].
          exfalso. apply Hgood. right. left. exists r', r. split_and!; [done|by left|done].
      - destruct (decide (length X = length y)) as [|Hne]; [done|].
        exfalso. apply Hgood. by do 3 right. }
    simpl.
    assert (check_classification_targets y = Raise (ValueError msg_label_type)) as ->; [|done].
    unfold check_classification_targets.
    destruct (forallb integral y) eqn:Hall; [|done].
    apply Is_true_true, forallb_True in Hall.
    apply Exists_exists in Hy as (q & Hq & Hqf).
    rewrite Forall_forall in Hall. specialize (Hall q Hq).
    rewrite Hqf in Hall. done.
  - intros self' e. unfold fit, then_, call.
    destruct (check_X_y X y) as [[X' y']|e']; [|by intros [= <- _]].
    destruct (check_classification_targets y') as [[]|e']; [|by intros [= <- _]].
    done.
Qed.

(** ** Further properties of the estimator *)

(** X4.  [most_common_label] returns the mode: a label that occurs more
    often in the array than every other label is the one returned. *)
Theorem most_common_label_majority {A : Type} `{EqDecision A} (array : list A) (v : A) :
  v ∈ array →
  (∀ v' : A, v' ≠ v → (occurrences v' array < occurrences v array)%nat) →
  most_common_label array = Some v.
Proof.
  intros Hin Hmajor.
  destruct (most_common_label_spec array) as [Hnone Hsome].
  destruct (most_common_label array) as [w|] eqn:Hw.
  - destruct (decide (w = v)) as [->|Hne]; [done|].
    destruct (Hsome w eq_refl) as (_ & Hmax & _).
    specialize (Hmax v). specialize (Hmajor w Hne). lia.
  - rewrite (proj1 Hnone eq_refl) in Hin. by apply elem_of_nil in Hin.
Qed.

Lemma np_unique_spec (y : list Qc) :
  StronglySorted Qclt (np_unique y) ∧ ∀ v, v ∈ np_unique y ↔ v ∈ y.
Proof.
  unfold np_unique. split.
  - assert (NoDup (merge_sort Qcle (remove_dups y))) as Hnd.
    { rewrite merge_sort_Permutation. apply NoDup_remove_dups. }
    pose proof (StronglySorted_merge_sort Qcle (remove_dups y)) as Hs.
    induction Hs as [|v l Hs IH Hv]; [constructor|].
    apply NoDup_cons in Hnd as [Hnotin Hnd].
    constructor; [by apply IH|].
    apply Forall_forall. intros w Hw. rewrite Forall_forall in Hv.
    destruct (Qcle_lt_or_eq _ _ (Hv w Hw)) as [?| ->]; done.
  - intros v. by rewrite merge_sort_Permutation, elem_of_remove_dups.
Qed.

(** X5.  What a successful [fit] leaves on the instance: the parameter
    [n_neighbors] untouched, the training matrix and labels as given (a
    rectangular matrix with at least one row and one column, one label per
    row), the number of columns as [n_features_in_], and as [classes_] the
    labels that occur, each once, in strictly ascending order. *)
Theorem fit_stores_training_data
    (self0 self : KNearestNeighbors) (X : matrix) (y : list Qc) :
  fit X y self0 = (self, Ok ()) →
  n_neighbors self = n_neighbors self0 ∧
  X_ self = Some X ∧ y_ self = Some y ∧
  n_features_in_ self = Some (n_columns X) ∧
  (0 < length X)%nat ∧ (0 < n_columns X)%nat ∧
  Forall (λ r, length r = n_columns X) X ∧
  length y = length X ∧
  ∃ c, classes_ self = Some c ∧ StronglySorted Qclt c ∧ ∀ v, v ∈ c ↔ v ∈ y.
Proof.
  intros (HX & Hlen & _ & ->)%fit_Ok. simpl.
  apply check_array_Ok in HX as (_ & Hne & Hcols & Hrect).
  split_and!; try done; [destruct X; [done|simpl; lia] | lia |].
  exists (np_unique y). split; [done|]. apply np_unique_spec.
Qed.

(** X6.  A later successful [fit] replaces the fitted state: the instance it
    leaves is the one a first [fit] on the same data would leave, whatever
    was fitted before. *)
Theorem refit_replaces_fitted_state
    (self0 self1 self2 : KNearestNeighbors) (X1 X2 : matrix) (y1 y2 : list Qc) :
  fit X1 y1 self0 = (self1, Ok ()) →
  fit X2 y2 self1 = (self2, Ok ()) →
  fit X2 y2 (init (n_neighbors self0)) = (self2, Ok ()).
Proof.
  intros (_ & _ & _ & ->)%fit_Ok (HX & Hlen & Hy & ->)%fit_Ok.
  apply fit_Ok. by split_and!.
Qed.

Section Use.
Variable distance : vector → vector → np_float.
Variable argsort : list np_float → list nat.
Hypothesis argsort_sorts : Argsort.sorts argsort.

Lemma consulted_in_range (self : KNearestNeighbors) (Xt : matrix) (x : vector) (a : nat) :
  a ∈ consulted distance argsort self Xt x → (a < length Xt)%nat.
Proof.
  unfold consulted.
  destruct (slice_to_prefix (ranking distance argsort Xt x) (n_neighbors self)) as [m ->].
  intros (i & Hi%list_elem_of_lookup_2 & _)%elem_of_take.
  by apply (ranking_elem distance argsort argsort_sorts Xt x).
Qed.

Lemma ranking_length (Xt : matrix) (x : vector) :
  length (ranking distance argsort Xt x) = length Xt.
Proof.
  rewrite (Permutation_length (ranking_perm distance argsort argsort_sorts Xt x)).
  apply length_seq.
Qed.

(** X7.  With at least one neighbour, [predict] on a fitted classifier and a
    well-formed query matrix returns one label per query row, and every
    label returned is a label of the training data, hence one of
    [classes_]. *)
Theorem predict_returns_training_labels
    (self0 self : KNearestNeighbors) (Xt : matrix) (yt : list Qc) (X : matrix) :
  fit Xt yt self0 = (self, Ok ()) →
  check_array X = Ok X → n_columns X = n_columns Xt →
  (0 < n_neighbors self)%Z →
  ∃ ys, predict distance argsort self X = Ok ys ∧
        length ys = length X ∧
        Forall (λ y_hat, ∃ v c, y_hat = Some v ∧ v ∈ yt ∧
                                classes_ self = Some c ∧ v ∈ c) ys.
Proof.
  intros Hfit HX Hcols Hk.
  destruct (predict_total distance argsort argsort_sorts self0 self Xt yt X Hfit HX Hcols)
    as (ys & Hys & Hall).
  exists ys. split; [done|]. split; [symmetry; by eapply Forall2_length|].
  pose proof (fit_stores_training_data _ _ _ _ Hfit)
    as (_ & _ & _ & _ & Hrows & _ & _ & Hlen & c & Hc & _ & Hcy).
  apply Forall_forall. intros y_hat (i & Hi)%list_elem_of_lookup_1.
  destruct (Forall2_lookup_r _ _ _ _ _ Hall Hi) as (x & _ & labels & Hl & ->).
  apply take_indices_Ok in Hl.
  assert (labels ≠ []) as Hne.
  { intros ->. apply Forall2_nil_inv_r in Hl. unfold consulted in Hl.
    rewrite slice_to_nonneg in Hl by lia.
    assert (length (take (Z.to_nat (n_neighbors self)) (ranking distance argsort Xt x)) = 0%nat)
      as Hzero by (by rewrite Hl).
    rewrite length_take, ranking_length in Hzero. lia. }
  destruct (most_common_label_spec labels) as [Hnone Hsome].
  destruct (most_common_label labels) as [v|] eqn:Hv; [|by destruct Hne; apply Hnone].
  destruct (Hsome v eq_refl) as ((j & Hj)%list_elem_of_lookup_1 & _).
  destruct (Forall2_lookup_r _ _ _ _ _ Hl Hj) as (a & _ & Ha).
  exists v, c. split_and!; [done| |done|].
  - by eapply list_elem_of_lookup_2.
  - apply Hcy. by eapply list_elem_of_lookup_2.
Qed.

(** X8.  With [n_neighbors = 0] no row is consulted and [predict] returns
    [None] for every query row. *)
Theorem predict_no_neighbor
    (self0 self : KNearestNeighbors) (Xt : matrix) (yt : list Qc) (X : matrix) :
  fit Xt yt self0 = (self, Ok ()) →
  check_array X = Ok X → n_columns X = n_columns Xt →
  n_neighbors self = 0%Z →
  predict distance argsort self X = Ok (replicate (length X) None).
Proof.
  intros (_ & _ & _ & ->)%fit_Ok HX Hcols Hk. simpl in Hk.
  unfold predict. simpl. rewrite HX. simpl.
  unfold pairwise_distances. rewrite bool_decide_true by done. simpl.
  unfold closest_rows. rewrite map_result_Ok, !Forall2_fmap_l.
  simpl. rewrite Hk. clear HX Hcols.
  induction X as [|x X IH]; simpl; constructor; [|done].
  unfold slice_to. rewrite bool_decide_true by lia. done.
Qed.

Lemma labels_of_permutation (yt : list Qc) (r : list nat) (labels : list Qc) :
  r ≡ₚ seq 0 (length yt) → Forall2 (λ a v, yt !! a = Some v) r labels →
  labels ≡ₚ yt.
Proof.
  intros Hperm Hl.
  assert (Some <$> labels = (λ a, yt !! a) <$> r) as Heq.
  { apply list_eq. intros i. rewrite !list_lookup_fmap.
    destruct (r !! i) as [a|] eqn:Ha; simpl.
    - destruct (Forall2_lookup_l _ _ _ _ _ Hl Ha) as (v & -> & Hv). by rewrite Hv.
    - apply lookup_ge_None in Ha. apply Forall2_length in Hl.
      rewrite (proj2 (lookup_ge_None labels i)); [done|lia]. }
  assert ((λ a, yt !! a) <$> seq 0 (length yt) = Some <$> yt) as Hseq.
  { apply list_eq. intros i. rewrite !list_lookup_fmap.
    destruct (decide (i < length yt)%nat) as [Hi|Hi].
    - rewrite lookup_seq_lt by done. simpl.
      by destruct (lookup_lt_is_Some_2 yt i Hi) as [v ->].
    - rewrite lookup_seq_ge by lia. simpl.
      by rewrite (proj2 (lookup_ge_None yt i)) by lia. }
  assert (∀ l : list Qc, omap id (Some <$> l) = l) as Hid.
  { intros l. induction l as [|v l IH]; [done|].
    rewrite fmap_cons. cbn [omap list_omap id]. by rewrite IH. }
  rewrite <-(Hid labels), <-(Hid yt). by rewrite Heq, Hperm, Hseq.
Qed.

Lemma occurrences_perm (v : Qc) (l k : list Qc) :
  l ≡ₚ k → occurrences v l = occurrences v k.
Proof. intros Hp. unfold occurrences. by rewrite Hp. Qed.

(** X9.  When [n_neighbors] is at least the number of training rows, every
    training row is consulted, and every label [predict] returns is a most
    frequent label of the whole training set. *)
Theorem predict_all_neighbors
    (self0 self : KNearestNeighbors) (Xt : matrix) (yt : list Qc) (X : matrix) :
  fit Xt yt self0 = (self, Ok ()) →
  check_array X = Ok X → n_columns X = n_columns Xt →
  (Z.of_nat (length Xt) ≤ n_neighbors self)%Z →
  ∃ ys, predict distance argsort self X = Ok ys ∧
    Forall2 (λ x y_hat,
      consulted distance argsort self Xt x ≡ₚ seq 0 (length Xt) ∧
      ∃ v, y_hat = Some v ∧ v ∈ yt ∧
           ∀ v' : Qc, (occurrences v' yt ≤ occurrences v yt)%nat) X ys.
Proof.
  intros Hfit HX Hcols Hk.
  destruct (predict_total distance argsort argsort_sorts self0 self Xt yt X Hfit HX Hcols)
    as (ys & Hys & Hall).
  exists ys. split; [done|].
  pose proof (fit_stores_training_data _ _ _ _ Hfit)
    as (_ & _ & _ & _ & Hrows & _ & _ & Hlen & _).
  eapply Forall2_impl; [exact Hall|]. intros x y_hat (labels & Hl & ->).
  assert (consulted distance argsort self Xt x = ranking distance argsort Xt x) as Hc.
  { unfold consulted. rewrite slice_to_nonneg by lia.
    apply take_ge. rewrite ranking_length. lia. }
  split; [rewrite Hc; apply (ranking_perm distance argsort argsort_sorts)|].
  apply take_indices_Ok in Hl. rewrite Hc in Hl.
  assert (labels ≡ₚ yt) as Hperm.
  { apply (labels_of_permutation yt (ranking distance argsort Xt x)); [|done].
    rewrite Hlen. apply (ranking_perm distance argsort argsort_sorts). }
  destruct (most_common_label_spec labels) as [Hnone Hsome].
  destruct (most_common_label labels) as [v|] eqn:Hv.
  - destruct (Hsome v eq_refl) as (Hin & Hmax & _).
    exists v. split_and!; [done|by rewrite <-Hperm|].
    intros v'. rewrite <-!(occurrences_perm _ _ _ Hperm). apply Hmax.
  - exfalso. rewrite (proj1 Hnone eq_refl) in Hperm.
    apply Permutation_length in Hperm. simpl in Hperm. lia.
Qed.

(** X10.  With one neighbour, a training row whose computed distance to
    the query is strictly smaller than that of every other training row
    decides the prediction: its label is returned, whatever the sort does
    with equal distances. *)
Theorem predict_strictly_nearest
    (self0 self : KNearestNeighbors) (Xt : matrix) (yt : list Qc) (X : matrix) :
  fit Xt yt self0 = (self, Ok ()) →
  check_array X = Ok X → n_columns X = n_columns Xt →
  n_neighbors self = 1%Z →
  ∃ ys, predict distance argsort self X = Ok ys ∧
    Forall2 (λ x y_hat,
      ∀ (a : nat) (xa : vector) (ya : Qc),
        Xt !! a = Some xa → yt !! a = Some ya →
        (∀ (b : nat) (xb : vector),
           Xt !! b = Some xb → b ≠ a → np_lt (distance x xa) (distance x xb)) →
        y_hat = Some ya) X ys.
Proof.
  intros Hfit HX Hcols Hk.
  destruct (predict_total distance argsort argsort_sorts self0 self Xt yt X Hfit HX Hcols)
    as (ys & Hys & Hall).
  exists ys. split; [done|].
  pose proof (fit_stores_training_data _ _ _ _ Hfit)
    as (_ & _ & _ & _ & Hrows & _ & _ & Hlen & _).
  eapply Forall2_impl; [exact Hall|]. intros x y_hat Hpred a xa ya Hxa Hya Hnear.
  assert (Xt ≠ []) as Hne by (destruct Xt; [simpl in Hrows; lia|done]).
  destruct (predicted_first_ranked distance argsort argsort_sorts self Xt yt x y_hat
              Hne (eq_sym Hlen) Hk Hpred)
    as (a' & xa' & ya' & _ & _ & Hxa' & Hya' & -> & Hmin).
  destruct (decide (a' = a)) as [->|Hdiff]; [congruence|].
  exfalso. specialize (Hnear a' xa' Hxa' Hdiff).
  apply (np_lt_not_le _ _ Hnear).
  apply Hmin. by eapply list_elem_of_lookup_2.
Qed.

(** X11.  [score] checks its labels before anything else: labels that are
    not a classification target raise the target [ValueError] whatever the
    state of the instance, and with labels that pass, an exception of
    [predict] (not fitted, shape) is the outcome of [score] unchanged. *)
Theorem score_checks_labels_then_predicts
    (self : KNearestNeighbors) (X : matrix) (y : list Qc) :
  (Exists (λ v, integral v = false) y →
   score distance argsort self X y = Raise (ValueError msg_label_type)) ∧
  (Forall (λ v, integral v = true) y →
   ∀ e, predict distance argsort self X = Raise e → score distance argsort self X y = Raise e).
Proof.
  split.
  - intros Hy. unfold score.
    assert (check_classification_targets y = Raise (ValueError msg_label_type)) as ->;
      [|done].
    destruct (check_classification_targets y) as [[]|e] eqn:Hc.
    + apply check_classification_targets_Ok in Hc.
      apply Exists_exists in Hy as (v & Hv & Hvf).
      rewrite Forall_forall in Hc. rewrite (Hc v Hv) in Hvf. done.
    + unfold check_classification_targets in Hc.
      destruct (forallb integral y); [done|]. by injection Hc as <-.
  - intros Hy e He. unfold score.
    rewrite (proj2 (check_classification_targets_Ok y) Hy). simpl. by rewrite He.
Qed.

Lemma unit_fraction (m n : nat) :
  n ≠ 0%nat → (m ≤ n)%nat →
  0 ≤ Qc_of_nat m / Qc_of_nat n ∧ Qc_of_nat m / Qc_of_nat n ≤ 1.
Proof.
  intros Hn Hm.
  assert (0 < Qc_of_nat n) as Hpos.
  { unfold Qc_of_nat. rewrite <-Z2Qc_inj_0. apply (proj1 (Z2Qc_inj_lt _ _)). lia. }
  assert (Qc_of_nat n ≠ 0) as Hnz.
  { intros H0. rewrite H0 in Hpos. by apply Qclt_not_eq in Hpos. }
  assert (Qc_of_nat m / Qc_of_nat n * Qc_of_nat n = Qc_of_nat m) as Hmul
    by (rewrite Qcmult_comm; by apply Qcmult_div_r).
  split; apply (Qcmult_lt_0_le_reg_r _ _ _ Hpos); rewrite Hmul.
  - rewrite Qcmult_0_l. unfold Qc_of_nat. rewrite <-Z2Qc_inj_0.
    apply (proj1 (Z2Qc_inj_le _ _)). lia.
  - rewrite Qcmult_1_l. unfold Qc_of_nat. apply (proj1 (Z2Qc_inj_le _ _)). lia.
Qed.

Lemma matches_zip (y : list Qc) (ys : list (option Qc)) :
  length (filter (λ b, b = true) (zip_with (λ a p, bool_decide (Some a = p)) y ys))
  = length (filter (λ p, Some p.1 = p.2) (zip y ys)).
Proof.
  revert ys. induction y as [|a y IH]; intros [|p ys]; try done.
  cbn [zip zip_with]. rewrite !filter_cons. simpl.
  destruct (decide (Some a = p)) as [Heq|Hne].
  - rewrite bool_decide_true by done. destruct (decide (true = true)); [|done].
    simpl. by rewrite IH.
  - rewrite bool_decide_false by done. destruct (decide (false = true)); [done|].
    apply IH.
Qed.

(** X12.  On a fitted classifier, a well-formed query matrix and one class
    label per query row, [score] returns the accuracy as numpy computes it:
    the [float64] nearest to the number of rows whose prediction equals the
    given label divided by the number of rows, a finite number between 0
    and 1. *)
Theorem score_is_fraction_of_matches
    (self0 self : KNearestNeighbors) (Xt : matrix) (yt : list Qc)
    (X : matrix) (y : list Qc) :
  fit Xt yt self0 = (self, Ok ()) →
  check_array X = Ok X → n_columns X = n_columns Xt →
  length y = length X → Forall (λ v, integral v = true) y →
  ∃ (ys : list (option Qc)) (acc : Qc),
    predict distance argsort self X = Ok ys ∧
    score distance argsort self X y = Ok (Finite acc) ∧
    0 ≤ acc ∧ acc ≤ 1 ∧
    Finite acc
    = round64 (Qc_of_nat (length (filter (λ p, Some p.1 = p.2) (zip y ys)))
               / Qc_of_nat (length X)).
Proof.
  intros Hfit HX Hcols Hlen Hy.
  destruct (predict_total distance argsort argsort_sorts self0 self Xt yt X Hfit HX Hcols)
    as (ys & Hys & Hall).
  apply Forall2_length in Hall.
  apply check_array_Ok in HX as (_ & Hne & _).
  set (b := zip_with (λ a p, bool_decide (Some a = p)) y ys).
  assert (length b = length X) as Hb.
  { unfold b. rewrite length_zip_with. lia. }
  set (m := length (filter (λ x, x = true) b)).
  assert (m ≤ length X)%nat as Hm by (unfold m; rewrite <-Hb; apply length_filter).
  destruct (unit_fraction m (length X)) as (Hlo & Hhi); [by destruct X|done|].
  destruct (round64_unit _ Hlo Hhi) as (acc & Hacc & Hacc0 & Hacc1).
  exists ys, acc.
  assert (score distance argsort self X y
          = Ok (round64 (Qc_of_nat m / Qc_of_nat (length X)))) as Hscore.
  { unfold score. rewrite (proj2 (check_classification_targets_Ok y) Hy). simpl.
    rewrite Hys. simpl. unfold np_equal.
    rewrite bool_decide_true by lia. simpl. fold b. unfold mean.
    fold m. rewrite Hb. clearbody m b.
    destruct b; [destruct X; [done|simpl in Hb; lia]|done]. }
  split_and!; [done | by rewrite Hscore, Hacc | done | done |].
  rewrite <-Hacc. unfold m, b. by rewrite matches_zip.
Qed.

(** X17.  [predict] treats the rows of its argument one by one: when it
    returns, the prediction at each position is the one it returns for the
    matrix made of that row alone. *)
Theorem predict_row_by_row
    (self : KNearestNeighbors) (X : matrix) (ys : list (option Qc)) :
  predict distance argsort self X = Ok ys →
  Forall2 (λ x y_hat, predict distance argsort self [x] = Ok [y_hat]) X ys.
Proof.
  intros H.
  destruct (predict_Ok distance argsort self X ys H) as (Xt & yt & HXt & Hyt & HX & Hcols & Hall).
  apply check_array_Ok in HX as (_ & _ & Hnz & Hrect).
  rewrite Hcols in Hnz, Hrect. clear H Hcols.
  induction Hall as [|x y_hat X ys (labels & Hlabels & ->) _ IH]; [done|].
  apply Forall_cons in Hrect as [Hx Hrect].
  constructor; [|by apply IH].
  unfold predict, check_is_fitted. rewrite HXt, Hyt. simpl.
  rewrite bool_decide_false by lia. simpl.
  unfold pairwise_distances. simpl. rewrite bool_decide_true by done. simpl.
  fold (ranking distance argsort Xt x). fold (consulted distance argsort self Xt x).
  by rewrite Hlabels.
Qed.

(** X18.  [score] does not compare the number of labels with the number of
    rows: given a single class label for a well-formed query matrix, a
    fitted classifier returns the fraction of the predictions that equal
    that label, as the nearest [float64]. *)
Theorem score_single_label_broadcast
    (self0 self : KNearestNeighbors) (Xt : matrix) (yt : list Qc)
    (X : matrix) (a : Qc) :
  fit Xt yt self0 = (self, Ok ()) →
  check_array X = Ok X → n_columns X = n_columns Xt →
  integral a = true →
  ∃ ys : list (option Qc),
    predict distance argsort self X = Ok ys ∧
    score distance argsort self X [a]
    = Ok (round64 (Qc_of_nat (length (filter (λ p, p = Some a) ys))
                   / Qc_of_nat (length X))).
Proof.
  intros Hfit HX Hcols Ha.
  destruct (predict_total distance argsort argsort_sorts self0 self Xt yt X Hfit HX Hcols)
    as (ys & Hys & Hall).
  apply Forall2_length in Hall.
  apply check_array_Ok in HX as (_ & Hne & _).
  set (b := (λ p, bool_decide (Some a = p)) <$> ys).
  assert (np_equal [a] ys = Ok b) as Heq.
  { unfold np_equal. case_bool_decide as Hl; [|done].
    destruct ys as [|p [|p' ys]]; done. }
  assert (length b = length X) as Hb by (unfold b; rewrite length_fmap; lia).
  assert (length (filter (λ x, x = true) b) = length (filter (λ p, p = Some a) ys)) as Hm.
  { unfold b. clear. induction ys as [|p ys IH]; [done|].
    rewrite fmap_cons, !filter_cons.
    destruct (decide (p = Some a)) as [->|Hp].
    - rewrite bool_decide_true by done. destruct (decide (true = true)); [|done].
      simpl. by rewrite IH.
    - rewrite bool_decide_false by congruence.
      destruct (decide (false = true)); [done|]. apply IH. }
  exists ys. split; [done|].
  unfold score, check_classification_targets. simpl. rewrite Ha. simpl.
  rewrite Hys. simpl. rewrite Heq. simpl. unfold mean. rewrite Hb, Hm.
  clearbody b. destruct b; [destruct X; [done|simpl in Hb; lia]|done].
Qed.

End Use.

End Estimator.

(** ** The estimator on the example data *)

Module EstimatorExamples.
Import KNN KNNFacts Argsort ArgsortFacts Estimator Examples.

(** C1, counterexample.  The training rows are [10^8] and [10^8 + 1] and the
    query is [10^8 + 1]: its distance to row 1 is 0 and to row 0 is 1, so a
    ranking by ascending Euclidean distance lists row 1 first.  In
    [float64] the square of [10^8 + 1] is rounded to [10^16 + 2 * 10^8] and
    both computed distances are 0; the sort leaves the two rows in place,
    the row consulted for [k = 1] is row 0, the farther one, and the label
    returned is its label [0], not the label [1] of the nearest row. *)
Lemma nearest_row_not_consulted :
  fit near_X near_y (init 1) = (near_clf, Ok ()) ∧
  exact_sq_distance [q 100000001] [q 100000000] = q 1 ∧
  exact_sq_distance [q 100000001] [q 100000001] = q 0 ∧
  dot64 [q 100000001] [q 100000001] = Finite (q 10000000200000000) ∧
  euclidean64 [q 100000001] [q 100000000] = Finite (q 0) ∧
  euclidean64 [q 100000001] [q 100000001] = Finite (q 0) ∧
  ranking euclidean64 argsort_stable near_X [q 100000001] = [0; 1]%nat ∧
  consulted euclidean64 argsort_stable near_clf near_X [q 100000001] = [0%nat] ∧
  near_y !! 0%nat = Some (q 0) ∧ near_y !! 1%nat = Some (q 1) ∧
  predict euclidean64 argsort_stable near_clf [[q 100000001]] = Ok [Some (q 0)].
Proof. split_and!; vm_compute; reflexivity. Qed.

(** The order of two rows at equal computed distance is not fixed by what
    numpy documents: of two sorts that return the keys in ascending order,
    one lists row 0 of [tie_X] first for the query [0], the other row 1. *)
Example ties_left_to_the_sort :
  sorts argsort_stable ∧ sorts argsort_reversing ∧
  euclidean64 [q 0] [q 1] = euclidean64 [q 0] [q (-1)] ∧
  ranking euclidean64 argsort_stable tie_X [q 0] = [0; 1]%nat ∧
  ranking euclidean64 argsort_reversing tie_X [q 0] = [1; 0]%nat.
Proof.
  split; [apply argsort_stable_sorts|]. split; [apply argsort_reversing_sorts|].
  split_and!; vm_compute; reflexivity.
Qed.

Lemma predict_consults_first_k_ascending_witness :
  sorts argsort_stable ∧
  fit tie_X tie_y (init 1) = (tie_clf, Ok ()) ∧
  check_array [[q 0]] = Ok [[q 0]] ∧
  n_columns [[q 0]] = n_columns tie_X ∧
  ∃ ys, predict euclidean64 argsort_stable tie_clf [[q 0]] = Ok ys ∧ length ys = 1%nat.
Proof.
  assert (fit tie_X tie_y (init 1) = (tie_clf, Ok ())) as Hfit by (vm_compute; reflexivity).
  assert (check_array [[q 0]] = Ok [[q 0]]) as HX by (vm_compute; reflexivity).
  assert (n_columns [[q 0]] = n_columns tie_X) as Hcols by reflexivity.
  split_and!; [apply argsort_stable_sorts | done | done | done |].
  destruct (predict_consults_first_k_ascending euclidean64 argsort_stable argsort_stable_sorts
              (init 1) tie_clf tie_X tie_y [[q 0]] Hfit HX Hcols) as (ys & Hys & Hall).
  exists ys. split; [done|]. by apply Forall2_length in Hall.
Defined.

(** An insertion sort leaves the tie of the example to row 0. *)
Example predict_tie_insertion :
  ranking euclidean64 argsort_stable tie_X [q 0] = [0; 1]%nat ∧
  predict euclidean64 argsort_stable tie_clf [[q 0]] = Ok [Some (q 0)].
Proof. split; vm_compute; reflexivity. Qed.

Lemma predict_first_encountered_wins_witness :
  sorts argsort_stable ∧
  fit line_X line_y (init 4) = (line_clf, Ok ()) ∧
  check_array [[q 1]] = Ok [[q 1]] ∧
  n_columns [[q 1]] = n_columns line_X ∧
  ∃ ys, predict euclidean64 argsort_stable line_clf [[q 1]] = Ok ys ∧ length ys = 1%nat.
Proof.
  assert (fit line_X line_y (init 4) = (line_clf, Ok ())) as Hfit by (vm_compute; reflexivity).
  assert (check_array [[q 1]] = Ok [[q 1]]) as HX by (vm_compute; reflexivity).
  assert (n_columns [[q 1]] = n_columns line_X) as Hcols by reflexivity.
  split_and!; [apply argsort_stable_sorts | done | done | done |].
  destruct (predict_first_encountered_wins euclidean64 argsort_stable argsort_stable_sorts
              (init 4) line_clf line_X line_y [[q 1]] Hfit HX Hcols)
    as (ys & Hys & _ & Hall).
  exists ys. split; [done|]. by apply Forall2_length in Hall.
Defined.

(** The consulted rows of the example, nearest first, are rows 1, 0, 2, 3 with
    labels [1; 2; 1; 2]: labels [1] and [2] occur twice each, and [1], met
    first, is returned. *)
Example predict_line_tie :
  consulted euclidean64 argsort_stable line_clf line_X [q 1] = [1; 0; 2; 3]%nat ∧
  take_indices line_y [1; 0; 2; 3]%nat = Ok [q 1; q 2; q 1; q 2] ∧
  predict euclidean64 argsort_stable line_clf [[q 1]] = Ok [Some (q 1)].
Proof. split_and!; vm_compute; reflexivity. Qed.

(** C5, counterexample.  The training set [twin_X] holds the same row twice,
    with labels [0] and [1].  Both rows are at distance zero from either
    query, so both queries get the label of the same first-ranked row, and
    one of the two is wrong: the score is 1/2.  The rows [10^8] and
    [10^8 + 1] of [near_X] are distinct, and all four distances computed
    for them are 0: the score on that training set is 1/2 as well. *)
Lemma score_twin_rows_is_half :
  fit twin_X twin_y (init 1) = (twin_clf, Ok ()) ∧
  predict euclidean64 argsort_stable twin_clf twin_X = Ok [Some (q 0); Some (q 0)] ∧
  score euclidean64 argsort_stable twin_clf twin_X twin_y = Ok (Finite (Q2Qc (1 # 2))) ∧
  Q2Qc (1 # 2) ≠ 1%Qc ∧
  fit near_X near_y (init 1) = (near_clf, Ok ()) ∧
  pairwise_distances euclidean64 near_X near_X
    = Ok [[Finite (q 0); Finite (q 0)]; [Finite (q 0); Finite (q 0)]] ∧
  predict euclidean64 argsort_stable near_clf near_X = Ok [Some (q 0); Some (q 0)] ∧
  score euclidean64 argsort_stable near_clf near_X near_y = Ok (Finite (Q2Qc (1 # 2))).
Proof.
  split_and!; [vm_compute; reflexivity | vm_compute; reflexivity | vm_compute; reflexivity
              | done | vm_compute; reflexivity..].
Qed.

Lemma score_training_data_one_neighbor_witness :
  sorts argsort_stable ∧
  n_neighbors (init 1) = 1 ∧
  fit tie_X tie_y (init 1) = (tie_clf, Ok ()) ∧
  (∀ (i j : nat) (xi xj : vector) (yi yj : Qc),
     tie_X !! i = Some xi → tie_X !! j = Some xj →
     tie_y !! i = Some yi → tie_y !! j = Some yj →
     np_le (euclidean64 xi xj) (euclidean64 xi xi) → yj = yi) ∧
  score euclidean64 argsort_stable tie_clf tie_X tie_y = Ok (Finite 1).
Proof.
  assert (fit tie_X tie_y (init 1) = (tie_clf, Ok ())) as Hfit by (vm_compute; reflexivity).
  assert (∀ (i j : nat) (xi xj : vector) (yi yj : Qc),
     tie_X !! i = Some xi → tie_X !! j = Some xj →
     tie_y !! i = Some yi → tie_y !! j = Some yj →
     np_le (euclidean64 xi xj) (euclidean64 xi xi) → yj = yi) as Hlabels.
  { intros [|[|i]] [|[|j]] xi xj yi yj; simpl; try done;
      intros [= <-] [= <-] [= <-] [= <-] Hle; try reflexivity;
      vm_compute in Hle; discriminate Hle. }
  split_and!; [apply argsort_stable_sorts | done | done | done |].
  exact (score_training_data_one_neighbor euclidean64 argsort_stable argsort_stable_sorts
           (init 1) tie_clf tie_X tie_y eq_refl Hfit Hlabels).
Defined.

Lemma predict_raises_not_fitted_or_dimension_witness :
  predict euclidean64 argsort_stable (init 1) [[q 0; q 1]] = Raise NotFittedError ∧
  fit tie_X tie_y (init 1) = (tie_clf, Ok ()) ∧
  n_columns [[q 0; q 1]] ≠ n_columns tie_X ∧
  n_features_in_ tie_clf = Some (n_columns tie_X) ∧
  ∃ msg, predict euclidean64 argsort_stable tie_clf [[q 0; q 1]] = Raise (ValueError msg).
Proof.
  assert (fit tie_X tie_y (init 1) = (tie_clf, Ok ())) as Hfit by (vm_compute; reflexivity).
  assert (n_columns [[q 0; q 1]] ≠ n_columns tie_X) as Hcols by (simpl; lia).
  destruct (predict_raises_not_fitted_or_dimension euclidean64 argsort_stable [[q 0; q 1]])
    as [Hnot Hdim].
  destruct (Hdim (init 1) tie_clf tie_X tie_y Hfit) as [Hn Hraise].
  destruct (Hraise Hcols) as (msg & Hmsg & _).
  split_and!; [by apply Hnot | done | done | done | by exists msg].
Defined.

Lemma fit_raises_before_writing_witness :
  malformed [[q 0]; [q 0; q 1]] [q 0; q 1] ∧
  ¬ malformed tie_X [Q2Qc (1 # 2); q 1] ∧
  Exists (λ v, integral v = false) [Q2Qc (1 # 2); q 1] ∧
  (∃ msg, fit [[q 0]; [q 0; q 1]] [q 0; q 1] tie_clf = (tie_clf, Raise (ValueError msg))) ∧
  fit tie_X [Q2Qc (1 # 2); q 1] tie_clf = (tie_clf, Raise (ValueError msg_label_type)).
Proof.
  assert (malformed [[q 0]; [q 0; q 1]] [q 0; q 1]) as Hbad.
  { right. left. exists [q 0], [q 0; q 1]. split_and!; [by left | by right; left | done]. }
  assert (¬ malformed tie_X [Q2Qc (1 # 2); q 1]) as Hgood.
  { intros [?|[(r & r' & Hr & Hr' & Hne)|[(r & Hr & Hr0)|?]]]; try done.
    - apply Hne. unfold tie_X in Hr, Hr'. rewrite !elem_of_cons in Hr, Hr'.
      destruct Hr as [->|[->|?%elem_of_nil]], Hr' as [->|[->|?%elem_of_nil]]; done.
    - unfold tie_X in Hr. rewrite !elem_of_cons in Hr.
      destruct Hr as [->|[->|?%elem_of_nil]]; done. }
  assert (Exists (λ v, integral v = false) [Q2Qc (1 # 2); q 1]) as Hy by (by left).
  destruct (fit_raises_before_writing tie_clf [[q 0]; [q 0; q 1]] [q 0; q 1])
    as (Hshape & _ & _).
  destruct (fit_raises_before_writing tie_clf tie_X [Q2Qc (1 # 2); q 1])
    as (_ & Htarget & _).
  destruct (Hshape Hbad) as (msg & _ & Hmsg).
  split_and!; [done | done | done | by exists msg | by apply Htarget].
Defined.

Lemma most_common_label_majority_witness :
  1%nat ∈ [1; 2; 1]%nat ∧
  (∀ v' : nat, v' ≠ 1%nat →
     (occurrences v' [1; 2; 1]%nat < occurrences 1%nat [1; 2; 1]%nat)%nat) ∧
  most_common_label [1; 2; 1]%nat = Some 1%nat.
Proof.
  assert (1%nat ∈ [1; 2; 1]%nat) as Hin by (by left).
  assert (∀ v' : nat, v' ≠ 1%nat →
            (occurrences v' [1; 2; 1]%nat < occurrences 1%nat [1; 2; 1]%nat)%nat) as Hmore.
  { intros v' Hv'. unfold occurrences. rewrite !filter_cons, !filter_nil.
    destruct (decide (1%nat = v')) as [Heq|_]; [by destruct Hv'|].
    destruct (decide (2%nat = v')); simpl; lia. }
  split_and!; [exact Hin | exact Hmore |].
  exact (most_common_label_majority [1; 2; 1]%nat 1%nat Hin Hmore).
Defined.

Lemma fit_stores_training_data_witness :
  fit tie_X tie_y (init 1) = (tie_clf, Ok ()) ∧
  X_ tie_clf = Some tie_X ∧ y_ tie_clf = Some tie_y ∧
  n_features_in_ tie_clf = Some (n_columns tie_X).
Proof.
  assert (fit tie_X tie_y (init 1) = (tie_clf, Ok ())) as Hfit by (vm_compute; reflexivity).
  destruct (fit_stores_training_data (init 1) tie_clf tie_X tie_y Hfit)
    as (_ & HX & Hy & Hn & _).
  split_and!; [exact Hfit | exact HX | exact Hy | exact Hn].
Defined.

Lemma refit_replaces_fitted_state_witness :
  fit tie_X tie_y (init 1) = (tie_clf, Ok ()) ∧
  fit twin_X twin_y tie_clf = (twin_clf, Ok ()) ∧
  fit twin_X twin_y (init 1) = (twin_clf, Ok ()).
Proof.
  assert (fit tie_X tie_y (init 1) = (tie_clf, Ok ())) as Hfit by (vm_compute; reflexivity).
  assert (fit twin_X twin_y tie_clf = (twin_clf, Ok ())) as Hrefit
    by (vm_compute; reflexivity).
  split_and!; [exact Hfit | exact Hrefit |].
  exact (refit_replaces_fitted_state (init 1) tie_clf twin_clf tie_X twin_X tie_y twin_y
           Hfit Hrefit).
Defined.

Lemma predict_returns_training_labels_witness :
  sorts argsort_stable ∧
  fit tie_X tie_y (init 1) = (tie_clf, Ok ()) ∧
  check_array [[q 0]] = Ok [[q 0]] ∧
  n_columns [[q 0]] = n_columns tie_X ∧
  (0 < n_neighbors tie_clf)%Z ∧
  ∃ ys, predict euclidean64 argsort_stable tie_clf [[q 0]] = Ok ys ∧ length ys = 1%nat.
Proof.
  assert (fit tie_X tie_y (init 1) = (tie_clf, Ok ())) as Hfit by (vm_compute; reflexivity).
  assert (check_array [[q 0]] = Ok [[q 0]]) as HX by (vm_compute; reflexivity).
  assert (n_columns [[q 0]] = n_columns tie_X) as Hcols by reflexivity.
  assert (0 < n_neighbors tie_clf)%Z as Hk by (simpl; lia).
  split_and!; [apply argsort_stable_sorts | exact Hfit | exact HX | exact Hcols | exact Hk |].
  destruct (predict_returns_training_labels euclidean64 argsort_stable argsort_stable_sorts
              (init 1) tie_clf tie_X tie_y [[q 0]] Hfit HX Hcols Hk) as (ys & Hys & Hlen & _).
  exists ys. split; [exact Hys | exact Hlen].
Defined.

Lemma predict_no_neighbor_witness :
  fit tie_X tie_y (init 0) = (none_clf, Ok ()) ∧
  check_array [[q 0]; [q 5]] = Ok [[q 0]; [q 5]] ∧
  n_columns [[q 0]; [q 5]] = n_columns tie_X ∧
  n_neighbors none_clf = 0%Z ∧
  predict euclidean64 argsort_stable none_clf [[q 0]; [q 5]] = Ok [None; None].
Proof.
  assert (fit tie_X tie_y (init 0) = (none_clf, Ok ())) as Hfit by (vm_compute; reflexivity).
  assert (check_array [[q 0]; [q 5]] = Ok [[q 0]; [q 5]]) as HX by (vm_compute; reflexivity).
  assert (n_columns [[q 0]; [q 5]] = n_columns tie_X) as Hcols by reflexivity.
  split_and!; [exact Hfit | exact HX | exact Hcols | reflexivity |].
  exact (predict_no_neighbor euclidean64 argsort_stable
           (init 0) none_clf tie_X tie_y [[q 0]; [q 5]] Hfit HX Hcols eq_refl).
Defined.

Lemma predict_all_neighbors_witness :
  sorts argsort_stable ∧
  fit line_X line_y (init 4) = (line_clf, Ok ()) ∧
  check_array [[q 1]] = Ok [[q 1]] ∧
  n_columns [[q 1]] = n_columns line_X ∧
  (Z.of_nat (length line_X) ≤ n_neighbors line_clf)%Z ∧
  ∃ ys, predict euclidean64 argsort_stable line_clf [[q 1]] = Ok ys ∧ length ys = 1%nat.
Proof.
  assert (fit line_X line_y (init 4) = (line_clf, Ok ())) as Hfit by (vm_compute; reflexivity).
  assert (check_array [[q 1]] = Ok [[q 1]]) as HX by (vm_compute; reflexivity).
  assert (n_columns [[q 1]] = n_columns line_X) as Hcols by reflexivity.
  assert (Z.of_nat (length line_X) ≤ n_neighbors line_clf)%Z as Hk by (simpl; lia).
  split_and!; [apply argsort_stable_sorts | exact Hfit | exact HX | exact Hcols | exact Hk |].
  destruct (predict_all_neighbors euclidean64 argsort_stable argsort_stable_sorts
              (init 4) line_clf line_X line_y [[q 1]] Hfit HX Hcols Hk) as (ys & Hys & Hall).
  exists ys. split; [exact Hys|]. by apply Forall2_length in Hall.
Defined.

Lemma predict_strictly_nearest_witness :
  sorts argsort_reversing ∧
  fit tie_X tie_y (init 1) = (tie_clf, Ok ()) ∧
  check_array [[q 1]] = Ok [[q 1]] ∧
  n_columns [[q 1]] = n_columns tie_X ∧
  n_neighbors tie_clf = 1%Z ∧
  (∀ (b : nat) (xb : vector), tie_X !! b = Some xb → b ≠ 0%nat →
     np_lt (euclidean64 [q 1] [q 1]) (euclidean64 [q 1] xb)) ∧
  ∃ ys, predict euclidean64 argsort_reversing tie_clf [[q 1]] = Ok ys ∧
        ys = [Some (q 0)].
Proof.
  assert (fit tie_X tie_y (init 1) = (tie_clf, Ok ())) as Hfit by (vm_compute; reflexivity).
  assert (check_array [[q 1]] = Ok [[q 1]]) as HX by (vm_compute; reflexivity).
  assert (n_columns [[q 1]] = n_columns tie_X) as Hcols by reflexivity.
  assert (∀ (b : nat) (xb : vector), tie_X !! b = Some xb → b ≠ 0%nat →
            np_lt (euclidean64 [q 1] [q 1]) (euclidean64 [q 1] xb)) as Hnear.
  { intros [|[|b]] xb Hb Hne; [done| |done]. injection Hb as <-.
    vm_compute. reflexivity. }
  split_and!;
    [apply argsort_reversing_sorts | exact Hfit | exact HX | exact Hcols | reflexivity
    | exact Hnear |].
  destruct (predict_strictly_nearest euclidean64 argsort_reversing argsort_reversing_sorts
              (init 1) tie_clf tie_X tie_y [[q 1]] Hfit HX Hcols eq_refl)
    as (ys & Hys & Hall).
  exists ys. split; [exact Hys|].
  apply Forall2_cons_inv_l in Hall as (y_hat & ys' & Hrow & Hnil & ->).
  apply Forall2_nil_inv_l in Hnil as ->.
  by rewrite (Hrow 0%nat [q 1] (q 0) eq_refl eq_refl Hnear).
Defined.

Lemma score_checks_labels_then_predicts_witness :
  integral (q (2 ^ 63 - 1024)) = true ∧ integral (q (2 ^ 63)) = false ∧
  Exists (λ v, integral v = false) [q (2 ^ 63); q 1] ∧
  score euclidean64 argsort_stable (init 1) tie_X [q (2 ^ 63); q 1]
    = Raise (ValueError msg_label_type) ∧
  Forall (λ v, integral v = true) tie_y ∧
  predict euclidean64 argsort_stable (init 1) tie_X = Raise NotFittedError ∧
  score euclidean64 argsort_stable (init 1) tie_X tie_y = Raise NotFittedError.
Proof.
  assert (Exists (λ v, integral v = false) [q (2 ^ 63); q 1]) as Hbad.
  { left. vm_compute. reflexivity. }
  assert (Forall (λ v, integral v = true) tie_y) as Hgood.
  { repeat constructor. }
  assert (predict euclidean64 argsort_stable (init 1) tie_X = Raise NotFittedError) as Hnot
    by reflexivity.
  destruct (score_checks_labels_then_predicts euclidean64 argsort_stable (init 1) tie_X
              [q (2 ^ 63); q 1]) as [Hlabels _].
  destruct (score_checks_labels_then_predicts euclidean64 argsort_stable (init 1) tie_X tie_y)
    as [_ Hpredict].
  split_and!;
    [vm_compute; reflexivity | vm_compute; reflexivity | exact Hbad | exact (Hlabels Hbad)
    | exact Hgood | exact Hnot |].
  exact (Hpredict Hgood NotFittedError Hnot).
Defined.

Lemma score_is_fraction_of_matches_witness :
  sorts argsort_stable ∧
  fit twin_X twin_y (init 1) = (twin_clf, Ok ()) ∧
  check_array twin_X = Ok twin_X ∧
  length twin_y = length twin_X ∧
  Forall (λ v, integral v = true) twin_y ∧
  ∃ acc : Qc, score euclidean64 argsort_stable twin_clf twin_X twin_y = Ok (Finite acc) ∧
              (0 ≤ acc)%Qc ∧ (acc ≤ 1)%Qc.
Proof.
  assert (fit twin_X twin_y (init 1) = (twin_clf, Ok ())) as Hfit
    by (vm_compute; reflexivity).
  assert (check_array twin_X = Ok twin_X) as HX by (vm_compute; reflexivity).
  assert (Forall (λ v, integral v = true) twin_y) as Hy.
  { repeat constructor. }
  split_and!; [apply argsort_stable_sorts | exact Hfit | exact HX | reflexivity | exact Hy |].
  destruct (score_is_fraction_of_matches euclidean64 argsort_stable argsort_stable_sorts
              (init 1) twin_clf twin_X twin_y twin_X twin_y Hfit HX eq_refl eq_refl Hy)
    as (ys & acc & _ & Hscore & Hlo & Hhi & _).
  exists acc. split_and!; [exact Hscore | exact Hlo | exact Hhi].
Defined.

Lemma predict_row_by_row_witness :
  predict euclidean64 argsort_stable tie_clf tie_X = Ok [Some (q 0); Some (q 1)] ∧
  predict euclidean64 argsort_stable tie_clf [[q 1]] = Ok [Some (q 0)] ∧
  predict euclidean64 argsort_stable tie_clf [[q (-1)]] = Ok [Some (q 1)].
Proof.
  assert (predict euclidean64 argsort_stable tie_clf tie_X = Ok [Some (q 0); Some (q 1)]) as Hys
    by (vm_compute; reflexivity).
  pose proof (predict_row_by_row euclidean64 argsort_stable tie_clf tie_X _ Hys) as Hrows.
  split; [exact Hys|].
  apply Forall2_cons in Hrows as [H0 Hrows].
  apply Forall2_cons in Hrows as [H1 _].
  split; [exact H0 | exact H1].
Defined.

Lemma score_single_label_broadcast_witness :
  sorts argsort_stable ∧
  fit tie_X tie_y (init 1) = (tie_clf, Ok ()) ∧
  check_array tie_X = Ok tie_X ∧
  integral (q 0) = true ∧
  ∃ ys : list (option Qc),
    predict euclidean64 argsort_stable tie_clf tie_X = Ok ys ∧
    score euclidean64 argsort_stable tie_clf tie_X [q 0]
    = Ok (round64 (Qc_of_nat (length (filter (λ p, p = Some (q 0)) ys))
                   / Qc_of_nat (length tie_X))).
Proof.
  assert (fit tie_X tie_y (init 1) = (tie_clf, Ok ())) as Hfit by (vm_compute; reflexivity).
  assert (check_array tie_X = Ok tie_X) as HX by (vm_compute; reflexivity).
  split_and!; [apply argsort_stable_sorts | exact Hfit | exact HX | reflexivity |].
  exact (score_single_label_broadcast euclidean64 argsort_stable argsort_stable_sorts
           (init 1) tie_clf tie_X tie_y tie_X (q 0) Hfit HX eq_refl eq_refl).
Defined.

(** One label for the three rows [0; 1; 2] fitted with labels [0; 1; 2]:
    one prediction in three equals it, and the score is the [float64]
    nearest to 1/3. *)
Example score_one_third :
  predict euclidean64 argsort_stable third_clf third_X
    = Ok [Some (q 0); Some (q 1); Some (q 2)] ∧
  score euclidean64 argsort_stable third_clf third_X [q 0]
    = Ok (Finite (Q2Qc (6004799503160661 # 18014398509481984))) ∧
  score euclidean64 argsort_stable third_clf third_X [q 0; q 0; q 0]
    = Ok (Finite (Q2Qc (6004799503160661 # 18014398509481984))).
Proof. split_and!; vm_compute; reflexivity. Qed.

End EstimatorExamples.

(** ** The splitter *)

Module MonthlyFacts.
Import Monthly.

(** *** The sorted distinct keys *)

Global Instance key_le_total : Total key_le.
Proof. intros [a1 a2] [b1 b2]. unfold key_le. simpl. lia. Qed.
Global Instance key_le_trans : Transitive key_le.
Proof. intros [a1 a2] [b1 b2] [c1 c2]. unfold key_le. simpl. lia. Qed.
Global Instance key_le_antisym : AntiSymm (=) key_le.
Proof.
  intros [a1 a2] [b1 b2]. unfold key_le. simpl. intros H1 H2.
  f_equal; lia.
Qed.

Lemma sorted_distinct_perm (df : list (Z * Z)) :
  sorted_distinct df ≡ₚ elements (list_to_set df : gset (Z * Z)).
Proof. apply merge_sort_Permutation. Qed.

Lemma sorted_distinct_elem (df : list (Z * Z)) (k : Z * Z) :
  k ∈ sorted_distinct df ↔ k ∈ df.
Proof. by rewrite sorted_distinct_perm, elem_of_elements, elem_of_list_to_set. Qed.

Lemma sorted_distinct_NoDup (df : list (Z * Z)) : NoDup (sorted_distinct df).
Proof. rewrite sorted_distinct_perm. apply NoDup_elements. Qed.

Lemma sorted_distinct_length (df : list (Z * Z)) :
  length (sorted_distinct df) = size (list_to_set df : gset (Z * Z)).
Proof. by rewrite sorted_distinct_perm. Qed.

Lemma sorted_distinct_ascending (df : list (Z * Z)) :
  StronglySorted key_lt (sorted_distinct df).
Proof.
  pose proof (sorted_distinct_NoDup df) as Hnd.
  pose proof (StronglySorted_merge_sort key_le
                (elements (list_to_set df : gset (Z * Z)))) as Hs.
  fold (sorted_distinct df) in Hs.
  induction Hs as [|k l Hs IH Hk]; [constructor|].
  apply NoDup_cons in Hnd as [Hnotin Hnd].
  constructor; [by apply IH|].
  apply Forall_forall. intros k' Hk'.
  rewrite Forall_forall in Hk. specialize (Hk k' Hk').
  assert (k ≠ k') as Hne by (by intros ->).
  destruct k as [a1 a2], k' as [b1 b2]. unfold key_le, key_lt in *. simpl in *.
  destruct Hk as [?|[-> ?]]; [by left|]. right. split; [done|].
  destruct (decide (a2 = b2)) as [->|]; [done|lia].
Qed.

(** Any list of the distinct keys has as many entries. *)
Lemma distinct_keys_length (df months : list (Z * Z)) :
  NoDup months → (∀ k, k ∈ months ↔ k ∈ df) →
  length months = size (list_to_set df : gset (Z * Z)).
Proof.
  intros Hnd Hiff. rewrite <-sorted_distinct_length.
  apply Permutation_length, NoDup_Permutation; [done|apply sorted_distinct_NoDup|].
  intros k. by rewrite Hiff, sorted_distinct_elem.
Qed.

(** *** [get_loc] *)

Lemma position_Some (key : scalar) (values : list scalar) (p : nat) :
  position key values = Some p →
  values !! p = Some key ∧ ∀ j, (j < p)%nat → values !! j ≠ Some key.
Proof.
  revert p. induction values as [|v r IH]; intros p; simpl; [done|].
  destruct (decide (v = key)) as [->|Hne].
  - intros [= <-]. split; [done|]. intros j ?. lia.
  - destruct (position key r) as [p'|]; [|done]. intros [= <-].
    destruct (IH p' eq_refl) as [Hp Hfirst]. split; [done|].
    intros [|j] Hj; simpl; [by intros [= ?]|]. apply Hfirst. lia.
Qed.

Lemma position_elem (key : scalar) (values : list scalar) :
  key ∈ values → is_Some (position key values).
Proof.
  induction values as [|v r IH]; [by intros ?%elem_of_nil|]. simpl.
  intros Hin. destruct (decide (v = key)) as [|Hne]; [by eexists|].
  apply elem_of_cons in Hin as [->|Hin]; [done|].
  destruct (IH Hin) as [p ->]. by eexists.
Qed.

Lemma position_NoDup (values : list scalar) (p : nat) (v : scalar) :
  NoDup values → values !! p = Some v → position v values = Some p.
Proof.
  intros Hnd Hp.
  destruct (position_elem v values) as [p' Hp']; [by eapply list_elem_of_lookup_2|].
  rewrite Hp'. f_equal. apply position_Some in Hp' as [Hp' _].
  by eapply NoDup_lookup.
Qed.

Lemma matches_pos (key : scalar) (values : list scalar) :
  key ∈ values → (0 < matches key values)%nat.
Proof. apply occurrences_pos. Qed.

Lemma lex_leb_refl (a : list Z) : lex_leb a a = true.
Proof.
  induction a as [|x a IH]; simpl; [done|].
  rewrite bool_decide_false by lia. by rewrite bool_decide_true.
Qed.

Lemma scalar_leb_refl (a : scalar) : scalar_leb a a = true.
Proof.
  destruct a; unfold scalar_leb.
  - apply lex_leb_refl.
  - apply bool_decide_eq_true. lia.
  - by rewrite bool_decide_true.
Qed.

Lemma filter_length_difference {A} (P Q R : A → Prop)
    `{∀ x, Decision (P x)} `{∀ x, Decision (Q x)} `{∀ x, Decision (R x)} (l : list A) :
  (∀ x, P x → Q x) → (∀ x, R x ↔ Q x ∧ ¬ P x) →
  (length (filter Q l) - length (filter P l))%nat = length (filter R l)
  ∧ (length (filter P l) ≤ length (filter Q l))%nat.
Proof.
  intros HPQ HR. induction l as [|x l [IH1 IH2]]; [done|].
  destruct (decide (P x)) as [HP|HP].
  - rewrite (filter_cons_True P), (filter_cons_True Q), (filter_cons_False R);
      [|rewrite HR; tauto|by apply HPQ|done]. simpl. lia.
  - rewrite (filter_cons_False P) by done. destruct (decide (Q x)) as [HQ|HQ].
    + rewrite (filter_cons_True Q), (filter_cons_True R); [|by apply HR|done].
      simpl. lia.
    + rewrite (filter_cons_False Q), (filter_cons_False R); [|rewrite HR; tauto|done].
      lia.
Qed.

Lemma searchsorted_difference (values : list scalar) (key : scalar) :
  (searchsorted_right values key - searchsorted_left values key)%nat = matches key values.
Proof.
  unfold searchsorted_right, searchsorted_left, matches.
  apply filter_length_difference.
  - intros v. unfold scalar_ltb. by intros [? _]%andb_true_iff.
  - intros v. unfold scalar_ltb. split.
    + intros ->. rewrite scalar_leb_refl, bool_decide_true by done. by split.
    + intros [Hle Hlt]. rewrite Hle in Hlt. simpl in Hlt.
      destruct (decide (v = key)) as [|Hne]; [done|].
      by rewrite bool_decide_false in Hlt.
Qed.

Lemma matches_indexer (values : list scalar) (key : scalar) :
  length (filter (λ b, b = true) ((λ v, bool_decide (v = key)) <$> values))
  = matches key values.
Proof.
  unfold matches. induction values as [|v r IH]; [done|].
  rewrite fmap_cons, !filter_cons.
  destruct (decide (v = key)) as [->|Hne].
  - rewrite bool_decide_true by done. destruct (decide (true = true)); [|done].
    simpl. by rewrite IH.
  - rewrite bool_decide_false by done. destruct (decide (false = true)); [done|].
    done.
Qed.

(** On an index without repeated values, a label is found at its position. *)
Lemma engine_get_loc_unique (values : list scalar) (p : nat) (v : scalar) :
  NoDup values → values !! p = Some v → engine_get_loc values v = Ok (LocInt p).
Proof.
  intros Hnd Hp. unfold engine_get_loc, is_unique.
  rewrite bool_decide_true by done. by rewrite (position_NoDup values p v).
Qed.

(** A label the index holds is always found. *)
Lemma engine_get_loc_total (values : list scalar) (v : scalar) :
  v ∈ values → ∃ l, engine_get_loc values v = Ok l.
Proof.
  intros Hin. unfold engine_get_loc.
  destruct (position_elem v values Hin) as [p Hp].
  pose proof (matches_pos v values Hin) as Hpos.
  destruct (is_unique values); [rewrite Hp; by eexists|].
  destruct (is_monotonic_increasing values).
  - rewrite searchsorted_difference.
    destruct (matches v values) as [|[|n]]; [lia|by eexists..].
  - rewrite matches_indexer.
    destruct (matches v values) as [|[|n]]; [lia| |by eexists].
    rewrite Hp. by eexists.
Qed.

(** A label the index holds more than once is located by a slice or by a
    mask, never by an integer. *)
Lemma engine_get_loc_repeated (values : list scalar) (v : scalar) :
  (2 ≤ matches v values)%nat →
  engine_get_loc values v
  = Ok (LocSlice (searchsorted_left values v) (searchsorted_right values v))
  ∨ engine_get_loc values v = Ok (LocMask ((λ w, bool_decide (w = v)) <$> values)).
Proof.
  intros Hrep. unfold engine_get_loc.
  assert (is_unique values = false) as ->.
  { unfold is_unique. apply bool_decide_eq_false. intros Hnd.
    unfold matches in Hrep. clear -Hnd Hrep.
    induction Hnd as [|w r Hw Hnd IH]; [simpl in Hrep; lia|].
    rewrite filter_cons in Hrep. destruct (decide (w = v)) as [->|Hne].
    - simpl in Hrep. assert (0 < occurrences v r)%nat as Hp by (unfold occurrences; lia).
      by apply occurrences_pos in Hp.
    - by apply IH. }
  destruct (is_monotonic_increasing values).
  - rewrite searchsorted_difference.
    destruct (matches v values) as [|[|n]]; [lia..|by left].
  - rewrite matches_indexer.
    destruct (matches v values) as [|[|n]]; [lia..|by right].
Qed.

(** *** The rows of one month *)

Lemma positions_from_elem (n : nat) (df : list (Z * Z)) (key : Z * Z) (p : nat) :
  p ∈ positions_from n df key ↔ ∃ i, p = (n + i)%nat ∧ df !! i = Some key.
Proof.
  revert n. induction df as [|k r IH]; intros n; simpl.
  - split; [by intros ?%elem_of_nil | by intros (i & _ & ?)].
  - destruct (decide (k = key)) as [->|Hne].
    + rewrite elem_of_cons, IH. split.
      * intros [->|(i & -> & Hi)]; [exists 0%nat | exists (S i)]; split; done || lia.
      * intros ([|i] & -> & Hi); [left; lia|]. right. exists i. split; [lia|done].
    + rewrite IH. split.
      * intros (i & -> & Hi). exists (S i). split; [lia|done].
      * intros ([|i] & -> & Hi); [by injection Hi|]. exists i. split; [lia|done].
Qed.

Lemma positions_from_sorted (n : nat) (df : list (Z * Z)) (key : Z * Z) :
  StronglySorted lt (positions_from n df key).
Proof.
  revert n. induction df as [|k r IH]; intros n; simpl; [constructor|].
  destruct (decide (k = key)); [|apply IH].
  constructor; [apply IH|]. apply Forall_forall.
  intros p (i & -> & _)%positions_from_elem. lia.
Qed.

(** The rows with a given key: exactly their positions, in row order. *)
Lemma rows_with_spec (df : list (Z * Z)) (key : Z * Z) :
  StronglySorted lt (rows_with df key) ∧
  ∀ p, p ∈ rows_with df key ↔ df !! p = Some key.
Proof.
  split; [apply positions_from_sorted|].
  intros p. unfold rows_with. rewrite positions_from_elem. split.
  - by intros (i & -> & Hi).
  - intros Hp. by exists p.
Qed.

Lemma masked_labels (pre vs : list scalar) (ds : list (Z * Z)) (key : Z * Z) :
  length ds = length vs →
  Forall2 (λ p v, (pre ++ vs) !! p = Some v)
    (positions_from (length pre) ds key)
    ((filter (λ p, p.1 = true) (zip (month_mask ds key) vs)).*2).
Proof.
  revert pre vs. induction ds as [|k r IH]; intros pre [|v vs] Hlen; try done.
  injection Hlen as Hlen. unfold month_mask. rewrite fmap_cons.
  fold (month_mask r key). cbn [zip zip_with positions_from].
  specialize (IH (pre ++ [v]) vs Hlen).
  rewrite <-app_assoc, length_app in IH. simpl in IH.
  rewrite Nat.add_1_r in IH.
  destruct (decide (k = key)) as [->|Hne].
  - rewrite bool_decide_true by done.
    rewrite filter_cons_True by done. rewrite fmap_cons. constructor; [|done].
    simpl. by rewrite lookup_app_r, Nat.sub_diag by lia.
  - rewrite bool_decide_false by done. by rewrite filter_cons_False by done.
Qed.

Section Rows.
Variable X : DataFrame.
Variable df : list (Z * Z).
Hypothesis one_key_per_row : length df = length (index_values (index X)).

(** The labels [X[df == key].index.tolist()] are the index values of the
    rows with that key. *)
Lemma masked_index_Ok (key : Z * Z) :
  ∃ labels, masked_index X (month_mask df key) = Ok labels ∧
            Forall2 (λ p v, index_values (index X) !! p = Some v)
              (rows_with df key) labels.
Proof.
  unfold masked_index, month_mask. rewrite length_fmap.
  rewrite bool_decide_true by done. eexists. split; [done|].
  apply (masked_labels [] (index_values (index X)) df key one_key_per_row).
Qed.

Lemma rows_of_Ok (key : Z * Z) :
  ∃ labels locs,
    Forall2 (λ p v, index_values (index X) !! p = Some v) (rows_with df key) labels ∧
    Forall2 (λ v l, get_loc (index X) v = Ok l) labels locs ∧
    rows_of X df key = Ok locs.
Proof.
  destruct (masked_index_Ok key) as (labels & Hmask & Hlabels).
  assert (∃ locs, map_result (get_loc (index X)) labels = Ok locs) as [locs Hlocs].
  { apply map_result_total. apply Forall_forall. intros v Hv.
    apply engine_get_loc_total.
    apply list_elem_of_lookup_1 in Hv as (j & Hj).
    destruct (Forall2_lookup_r _ _ _ _ _ Hlabels Hj) as (p & _ & Hp).
    by eapply list_elem_of_lookup_2. }
  exists labels, locs. split_and!; [done|by apply map_result_Ok|].
  unfold rows_of. fold (month_mask df key). rewrite Hmask. simpl. done.
Qed.

(** Without repeated index values, the rows of a month come out as their
    positions. *)
Lemma rows_of_unique (key : Z * Z) :
  NoDup (index_values (index X)) →
  rows_of X df key = Ok (LocInt <$> rows_with df key).
Proof.
  intros Hnd. destruct (rows_of_Ok key) as (labels & locs & Hlabels & Hlocs & ->).
  f_equal. apply list_eq. intros j. rewrite list_lookup_fmap.
  destruct (rows_with df key !! j) as [p|] eqn:Hp; simpl.
  - destruct (Forall2_lookup_l _ _ _ _ _ Hlabels Hp) as (v & Hv & Hpv).
    destruct (Forall2_lookup_l _ _ _ _ _ Hlocs Hv) as (l & Hl & Hvl).
    rewrite Hl. f_equal. unfold get_loc in Hvl.
    rewrite (engine_get_loc_unique _ p v Hnd Hpv) in Hvl. by injection Hvl.
  - apply lookup_ge_None. apply lookup_ge_None in Hp.
    apply Forall2_length in Hlabels, Hlocs. lia.
Qed.

End Rows.

(** *** Reading the time source *)

Lemma year_month_times (data : list Timestamp) :
  map_result year_month (Time <$> data) = Ok (month_keys data).
Proof.
  apply map_result_Ok. unfold month_keys.
  apply Forall2_fmap_l, Forall2_fmap_r, Forall_Forall2_diag, Forall_true. done.
Qed.

Lemma get_n_splits_unfold (self : MonthlySplit) (X : DataFrame) :
  get_n_splits self X =
  (values ← time_values self X;
   keys ← map_result year_month values;
   Ok (Z.of_nat (size (list_to_set keys : gset (Z * Z))) - 1)).
Proof.
  unfold get_n_splits, time_values. case_bool_decide; [done|].
  by destruct (getitem X (time_col self)).
Qed.

Lemma get_n_splits_times (self : MonthlySplit) (X : DataFrame) (data : list Timestamp) :
  time_values self X = Ok (Time <$> data) →
  get_n_splits self X
  = Ok (Z.of_nat (size (list_to_set (month_keys data) : gset (Z * Z))) - 1).
Proof.
  intros Hv. rewrite get_n_splits_unfold, Hv. simpl.
  by rewrite year_month_times.
Qed.

Lemma split_reads_time_values (self : MonthlySplit) (X : DataFrame) (data : list Timestamp) :
  split_reads self X data → time_values self X = Ok (Time <$> data).
Proof.
  unfold time_values. intros [[Hcol [tz Hidx]]|[Hcol Hget]].
  - rewrite bool_decide_true by done. by rewrite Hidx.
  - rewrite bool_decide_false by done. by rewrite Hget.
Qed.

Lemma split_setup_reads (self : MonthlySplit) (X : DataFrame) (data : list Timestamp) :
  split_reads self X data →
  split_setup self X
  = Ok (month_keys data, sorted_distinct (month_keys data),
        Z.of_nat (length (sorted_distinct (month_keys data))) - 1).
Proof.
  intros Hreads. unfold split_setup.
  rewrite (get_n_splits_times self X data) by by apply split_reads_time_values.
  assert ((if bool_decide (time_col self = "index")
           then if negb (isinstance_DatetimeIndex (index X))
                then Raise (ValueError msg_index)
                else map_result year_month (index_values (index X))
           else getitem X (time_col self) ≫= λ c,
                (if negb (isinstance_Series c) then Ok true else dtype_differs c) ≫= λ d : bool,
                if d then Raise (ValueError msg_column)
                else map_result year_month (iterate c))
          = Ok (month_keys data)) as ->.
  { destruct Hreads as [[Hcol [tz Hidx]]|[Hcol Hget]].
    - rewrite bool_decide_true by done. rewrite Hidx. simpl. apply year_month_times.
    - rewrite bool_decide_false by done. rewrite Hget. simpl. apply year_month_times. }
  simpl. rewrite sorted_distinct_length.
  by rewrite bool_decide_true by lia.
Qed.

Lemma split_reads_rows (self : MonthlySplit) (X : DataFrame) (data : list Timestamp) :
  split_reads self X data → well_formed X →
  length (month_keys data) = length (index_values (index X)).
Proof.
  unfold month_keys. rewrite length_fmap.
  intros [[Hcol [tz Hidx]]|[Hcol Hget]] Hwf.
  - rewrite Hidx. simpl. by rewrite length_fmap.
  - unfold getitem in Hget.
    destruct (filter (λ c, c.1 = time_col self) (columns X)) as [|c [|c' cs]] eqn:Hf;
      try done.
    injection Hget as Hc.
    assert (c ∈ columns X) as Hin.
    { assert (c ∈ filter (λ c, c.1 = time_col self) (columns X)) as Hin
        by (rewrite Hf; by left).
      by apply list_elem_of_filter in Hin as [_ ?]. }
    unfold well_formed in Hwf. rewrite Forall_forall in Hwf.
    specialize (Hwf c Hin). rewrite Hc in Hwf. simpl in Hwf.
    by rewrite length_fmap in Hwf.
Qed.

(** *** The loop *)

Lemma for_yield_Ok {A} (body : Z → result A) (range : list Z) (vs : list A) :
  Forall2 (λ i v, body i = Ok v) range vs → for_yield body range = (vs, None).
Proof.
  induction 1 as [|i v range vs Hi _ IH]; simpl; [done|].
  by rewrite Hi, IH.
Qed.

Lemma item_nat {A} (l : list A) (i : nat) (v : A) :
  l !! i = Some v → item l (Z.of_nat i) = Ok v.
Proof. intros Hv. unfold item. by rewrite Nat2Z.id, Hv. Qed.

Lemma item_succ {A} (l : list A) (i : nat) (v : A) :
  l !! S i = Some v → item l (Z.of_nat i + 1) = Ok v.
Proof.
  intros Hv. unfold item.
  replace (Z.to_nat (Z.of_nat i + 1)) with (S i) by lia. by rewrite Hv.
Qed.

(** When the time source passes the check and there is one key per row,
    [split] raises nothing and yields one fold per pair of consecutive
    months: the rows of the earlier month, then the rows of the later one. *)
Lemma split_folds (self : MonthlySplit) (X : DataFrame) (data : list Timestamp) :
  split_reads self X data →
  length (month_keys data) = length (index_values (index X)) →
  ∃ folds,
    split self X = (folds, None) ∧
    length folds = (length (sorted_distinct (month_keys data)) - 1)%nat ∧
    ∀ (i : nat) (k_train k_test : Z * Z),
      sorted_distinct (month_keys data) !! i = Some k_train →
      sorted_distinct (month_keys data) !! S i = Some k_test →
      ∃ idx_train idx_test,
        folds !! i = Some (idx_train, idx_test) ∧
        rows_of X (month_keys data) k_train = Ok idx_train ∧
        rows_of X (month_keys data) k_test = Ok idx_test.
Proof.
  intros Hreads Hlen. unfold split. rewrite (split_setup_reads self X data Hreads).
  set (df := month_keys data). set (months := sorted_distinct df).
  set (body := λ i : Z,
         item months i ≫= λ k_train,
         rows_of X df k_train ≫= λ idx_train,
         item months (i + 1) ≫= λ k_test,
         rows_of X df k_test ≫= λ idx_test,
         Ok (idx_train, idx_test)).
  assert (∀ i k_train k_test,
            months !! i = Some k_train → months !! S i = Some k_test →
            ∃ idx_train idx_test,
              body (Z.of_nat i) = Ok (idx_train, idx_test) ∧
              rows_of X df k_train = Ok idx_train ∧
              rows_of X df k_test = Ok idx_test) as Hbody.
  { intros i k_train k_test Hi HSi.
    destruct (rows_of_Ok X df Hlen k_train) as (_ & idx_train & _ & _ & Htrain).
    destruct (rows_of_Ok X df Hlen k_test) as (_ & idx_test & _ & _ & Htest).
    exists idx_train, idx_test. split; [|done]. unfold body.
    rewrite (item_nat _ _ _ Hi). simpl. rewrite Htrain. simpl.
    rewrite (item_succ _ _ _ HSi). simpl. by rewrite Htest. }
  assert (py_range (Z.of_nat (length months) - 1)
          = Z.of_nat <$> seq 0 (length months - 1)) as ->.
  { unfold py_range. f_equal. f_equal. lia. }
  assert (∃ folds, Forall2 (λ i v, body i = Ok v)
                     (Z.of_nat <$> seq 0 (length months - 1)) folds) as [folds Hfolds].
  { assert (∃ folds, map_result body (Z.of_nat <$> seq 0 (length months - 1)) = Ok folds)
      as [folds Hf]; [|exists folds; by apply map_result_Ok].
    apply map_result_total. rewrite Forall_fmap. apply Forall_forall.
    intros i Hi%elem_of_seq. simpl.
    destruct (lookup_lt_is_Some_2 months i) as [k_train Hk]; [lia|].
    destruct (lookup_lt_is_Some_2 months (S i)) as [k_test Hk']; [lia|].
    destruct (Hbody i k_train k_test Hk Hk') as (a & b & Hab & _). by eexists. }
  exists folds. split_and!.
  - by apply for_yield_Ok.
  - apply Forall2_length in Hfolds. by rewrite length_fmap, length_seq in Hfolds.
  - intros i k_train k_test Hi HSi.
    destruct (Hbody i k_train k_test Hi HSi) as (idx_train & idx_test & Hb & Htr & Hte).
    exists idx_train, idx_test. split_and!; try done.
    apply lookup_lt_Some in HSi.
    assert ((Z.of_nat <$> seq 0 (length months - 1)) !! i = Some (Z.of_nat i)) as Hseq.
    { rewrite list_lookup_fmap, lookup_seq_lt by lia. done. }
    destruct (Forall2_lookup_l _ _ _ _ _ Hfolds Hseq) as (v & Hv & Hbv).
    rewrite Hv. congruence.
Qed.

(** *** The claims about the splitter *)

Lemma rows_of_located (X : DataFrame) (df : list (Z * Z)) (key : Z * Z) (locs : list loc) :
  length df = length (index_values (index X)) →
  rows_of X df key = Ok locs → located X df key locs.
Proof.
  intros Hlen Hrows.
  destruct (rows_of_Ok X df Hlen key) as (labels & locs' & Hlabels & Hlocs & Hrows').
  assert (locs' = locs) as -> by congruence.
  exists labels. split_and!; try done.
  - intros Hnd. rewrite (rows_of_unique X df Hlen key Hnd) in Hrows. congruence.
  - intros j v l Hv Hl Hrep.
    destruct (Forall2_lookup_l _ _ _ _ _ Hlocs Hv) as (l' & Hl' & Hget).
    assert (l' = l) as -> by congruence. unfold get_loc in Hget.
    destruct (engine_get_loc_repeated _ v Hrep) as [H|H]; rewrite H in Hget;
      injection Hget as <-; eauto.
Qed.

(** C2 (as amended).  When the time source passes the check of [split], the
    table is well formed and no index value is repeated: with [months] the
    distinct keys in ascending order, [split] raises nothing and yields
    [length months - 1] folds (none for an empty table), and fold [i] holds
    the positions of the rows with key [months[i]], then the positions of the
    rows with key [months[i+1]], each in row order. *)
Theorem split_yields_consecutive_months
    (self : MonthlySplit) (X : DataFrame) (data : list Timestamp) :
  split_reads self X data → well_formed X → NoDup (index_values (index X)) →
  ∃ (months : list (Z * Z)) (folds : list fold),
    StronglySorted key_lt months ∧
    (∀ k, k ∈ months ↔ k ∈ month_keys data) ∧
    split self X = (folds, None) ∧
    length folds = (length months - 1)%nat ∧
    ∀ (i : nat) (k_train k_test : Z * Z),
      months !! i = Some k_train → months !! S i = Some k_test →
      ∃ train test : list nat,
        folds !! i = Some (LocInt <$> train, LocInt <$> test) ∧
        StronglySorted lt train ∧
        (∀ p, p ∈ train ↔ month_keys data !! p = Some k_train) ∧
        StronglySorted lt test ∧
        (∀ p, p ∈ test ↔ month_keys data !! p = Some k_test).
Proof.
  intros Hreads Hwf Hnd.
  pose proof (split_reads_rows self X data Hreads Hwf) as Hlen.
  destruct (split_folds self X data Hreads Hlen) as (folds & Hsplit & Hn & Hfolds).
  exists (sorted_distinct (month_keys data)), folds. split_and!; try done.
  - apply sorted_distinct_ascending.
  - apply sorted_distinct_elem.
  - intros i k_train k_test Hi HSi.
    destruct (Hfolds i k_train k_test Hi HSi) as (idx_train & idx_test & Hf & Htr & Hte).
    rewrite (rows_of_unique X _ Hlen k_train Hnd) in Htr.
    rewrite (rows_of_unique X _ Hlen k_test Hnd) in Hte.
    injection Htr as <-. injection Hte as <-.
    exists (rows_with (month_keys data) k_train), (rows_with (month_keys data) k_test).
    split; [done|].
    destruct (rows_with_spec (month_keys data) k_train) as [? ?].
    destruct (rows_with_spec (month_keys data) k_test) as [? ?]. done.
Qed.

(** C3 (as amended).  For a table whose time source holds timestamps that
    span [N] distinct months, [get_n_splits] returns [N - 1]; when they span
    one month it returns 0, and [split] yields nothing and raises nothing
    provided the time source passes its check. *)
Theorem get_n_splits_counts_months
    (self : MonthlySplit) (X : DataFrame) (data : list Timestamp) (months : list (Z * Z)) :
  time_values self X = Ok (Time <$> data) →
  NoDup months → (∀ k, k ∈ months ↔ k ∈ month_keys data) →
  get_n_splits self X = Ok (Z.of_nat (length months) - 1) ∧
  (length months = 1%nat →
   get_n_splits self X = Ok 0 ∧
   (split_reads self X data → split self X = ([], None))).
Proof.
  intros Hvalues Hnd Hmonths.
  pose proof (distinct_keys_length _ _ Hnd Hmonths) as Hsize.
  assert (get_n_splits self X = Ok (Z.of_nat (length months) - 1)) as Hn.
  { rewrite (get_n_splits_times self X data Hvalues). by rewrite Hsize. }
  split; [done|]. intros Hone. split; [by rewrite Hn, Hone|].
  intros Hreads. unfold split. rewrite (split_setup_reads self X data Hreads).
  by rewrite sorted_distinct_length, <-Hsize, Hone.
Qed.

Lemma dtype_datetime64_ns (c : Series) :
  dtype c = "datetime64[ns]" ↔ ∃ data, c = DatetimeSeries ns None data.
Proof.
  split; [|by intros [data ->]].
  destruct c as [u [tz|] data| |]; unfold dtype; try done.
  - destruct u; cbv [unit_name String.append]; intros H; discriminate H.
  - destruct u; cbv [unit_name String.append]; intros H; try discriminate H.
    by exists data.
Qed.

Lemma split_column_rejected (self : MonthlySplit) (X : DataFrame) (c : selection) :
  time_col self ≠ "index" → getitem X (time_col self) = Ok c →
  (∀ data, c ≠ OneSeries (DatetimeSeries ns None data)) →
  split self X = ([], Some (ValueError msg_column)).
Proof.
  intros Hcol Hget Hc. unfold split, split_setup.
  rewrite bool_decide_false by done. rewrite Hget. simpl.
  destruct c as [c|cols]; simpl; [|done].
  case_bool_decide as Hd; [done|]. exfalso.
  apply dtype_datetime64_ns in Hd as [data ->].
  by apply (Hc data).
Qed.

Lemma split_index_rejected (self : MonthlySplit) (X : DataFrame) :
  time_col self = "index" → isinstance_DatetimeIndex (index X) = false →
  split self X = ([], Some (ValueError msg_index)).
Proof.
  intros Hcol Hidx. unfold split, split_setup.
  rewrite bool_decide_true by done. by rewrite Hidx.
Qed.

(** C7.  When the index is the time source and is not a [DatetimeIndex], or
    a column is and what the table holds under its name is not a [Series]
    of a datetime dtype, [split] raises the not-datetime [ValueError] and
    has yielded no fold.  In particular this is so whenever some value of
    the time source is not a timestamp. *)
Theorem split_rejects_non_datetime (self : MonthlySplit) (X : DataFrame) :
  (time_col self = "index" → isinstance_DatetimeIndex (index X) = false →
   split self X = ([], Some (ValueError msg_index))) ∧
  (time_col self ≠ "index" →
   ∀ c, getitem X (time_col self) = Ok c →
        (∀ u tz data, c ≠ OneSeries (DatetimeSeries u tz data)) →
        split self X = ([], Some (ValueError msg_column))) ∧
  (∀ values, time_values self X = Ok values →
     (∃ v, v ∈ values ∧ ∀ t, v ≠ Time t) →
     ∃ msg, msg ∈ [msg_index; msg_column] ∧
            split self X = ([], Some (ValueError msg))).
Proof.
  split_and!.
  - apply split_index_rejected.
  - intros Hcol c Hget Hc. apply (split_column_rejected self X c Hcol Hget).
    intros data. apply Hc.
  - intros values Hvalues (v & Hv & Hnot). unfold time_values in Hvalues.
    case_bool_decide as Hcol.
    + exists msg_index. split; [by left|]. apply split_index_rejected; [done|].
      injection Hvalues as <-. destruct (index X) as [tz data| |]; try done.
      simpl in Hv. apply list_elem_of_fmap in Hv as (t & -> & _). by destruct (Hnot t).
    + exists msg_column. split; [by right; left|].
      destruct (getitem X (time_col self)) as [c|] eqn:Hget; [|done].
      simpl in Hvalues. injection Hvalues as <-.
      apply (split_column_rejected self X c Hcol Hget).
      intros data ->. simpl in Hv.
      apply list_elem_of_fmap in Hv as (t & -> & _). by destruct (Hnot t).
Qed.

Lemma located_entries (X : DataFrame) (df : list (Z * Z)) (key : Z * Z) (locs : list loc) :
  located X df key locs →
  length locs = length (rows_with df key) ∧
  (key ∈ df → locs ≠ []) ∧
  (∀ (p : nat) (v : scalar),
     p ∈ rows_with df key → index_values (index X) !! p = Some v →
     (2 ≤ matches v (index_values (index X)))%nat →
     locs ≠ LocInt <$> rows_with df key).
Proof.
  intros (labels & Hlabels & Hlocs & _ & Hrep).
  assert (length locs = length (rows_with df key)) as Hlen.
  { apply Forall2_length in Hlabels, Hlocs. lia. }
  split_and!; [done| |].
  - intros (p & Hp)%list_elem_of_lookup_1 ->.
    apply (proj2 (rows_with_spec df key)) in Hp.
    destruct (rows_with df key); [by apply elem_of_nil in Hp|done].
  - intros p v (j & Hj)%list_elem_of_lookup_1 Hv Hmany Heq.
    destruct (Forall2_lookup_l _ _ _ _ _ Hlabels Hj) as (v' & Hv' & Hpv).
    assert (v' = v) as -> by congruence.
    destruct (Forall2_lookup_l _ _ _ _ _ Hlocs Hv') as (l & Hl & _).
    assert (l = LocInt p) as ->.
    { rewrite Heq, list_lookup_fmap, Hj in Hl. by injection Hl as <-. }
    destruct (Hrep j v (LocInt p) Hv' Hl Hmany) as [(? & ? & ?)|(? & ?)]; done.
Qed.

(** C9.  When the time source passes the check of [split] and the table is
    well formed, [split] yields one fold per pair of consecutive months,
    and every entry of every fold is what [Index.get_loc] returns for the
    index value of a row of the month, one entry per row: the sides of fold
    [i] are the positions of the rows of [months[i]] and of [months[i+1]]
    when no index value is repeated, and a side with a row whose index value
    is repeated is not the list of the positions of its rows (the entry of
    that row is a slice or a mask). *)
Theorem split_entries_located_by_get_loc
    (self : MonthlySplit) (X : DataFrame) (data : list Timestamp) :
  split_reads self X data → well_formed X →
  ∃ folds : list fold,
    split self X = (folds, None) ∧
    length folds = (length (sorted_distinct (month_keys data)) - 1)%nat ∧
    ∀ (i : nat) (k_train k_test : Z * Z),
      sorted_distinct (month_keys data) !! i = Some k_train →
      sorted_distinct (month_keys data) !! S i = Some k_test →
      ∃ idx_train idx_test : list loc,
        folds !! i = Some (idx_train, idx_test) ∧
        idx_train ≠ [] ∧ idx_test ≠ [] ∧
        located X (month_keys data) k_train idx_train ∧
        located X (month_keys data) k_test idx_test ∧
        (NoDup (index_values (index X)) →
         idx_train = LocInt <$> rows_with (month_keys data) k_train ∧
         idx_test = LocInt <$> rows_with (month_keys data) k_test) ∧
        (∀ (p : nat) (v : scalar),
           index_values (index X) !! p = Some v →
           (2 ≤ matches v (index_values (index X)))%nat →
           (p ∈ rows_with (month_keys data) k_train →
            idx_train ≠ LocInt <$> rows_with (month_keys data) k_train) ∧
           (p ∈ rows_with (month_keys data) k_test →
            idx_test ≠ LocInt <$> rows_with (month_keys data) k_test)).
Proof.
  intros Hreads Hwf.
  pose proof (split_reads_rows self X data Hreads Hwf) as Hlen.
  destruct (split_folds self X data Hreads Hlen) as (folds & Hsplit & Hn & Hfolds).
  exists folds. split_and!; [done|done|]. intros i k_train k_test Hk Hk'.
  destruct (Hfolds i k_train k_test Hk Hk') as (idx_train & idx_test & Hi & Htr & Hte).
  apply (rows_of_located X _ _ _ Hlen) in Htr, Hte.
  destruct (located_entries _ _ _ _ Htr) as (_ & Htr_ne & Htr_rep).
  destruct (located_entries _ _ _ _ Hte) as (_ & Hte_ne & Hte_rep).
  exists idx_train, idx_test. split_and!; try done.
  - apply Htr_ne, sorted_distinct_elem. by eapply list_elem_of_lookup_2.
  - apply Hte_ne, sorted_distinct_elem. by eapply list_elem_of_lookup_2.
  - intros Hnd. destruct Htr as (_ & _ & _ & Htr & _), Hte as (_ & _ & _ & Hte & _).
    split; [by apply Htr | by apply Hte].
  - intros p v Hv Hmany. split; intros Hp; eauto.
Qed.

(** C10.  With a named time column, [split] goes on exactly when the table
    holds under that name one [Series] of dtype [datetime64[ns]]; a
    [Series] of any other dtype, a timezone-aware one included, and
    several columns of that name are refused with the not-datetime
    [ValueError].  With the index as time source every [DatetimeIndex] is
    accepted, whatever its timezone. *)
Theorem split_column_dtype_check (self : MonthlySplit) (X : DataFrame) :
  (time_col self ≠ "index" →
   ∀ c, getitem X (time_col self) = Ok c →
     (∀ col, c = OneSeries col → dtype col = "datetime64[ns]" →
        ∃ r, split_setup self X = Ok r) ∧
     (∀ col, c = OneSeries col → dtype col ≠ "datetime64[ns]" →
        split self X = ([], Some (ValueError msg_column))) ∧
     (∀ u tz data, c = OneSeries (DatetimeSeries u (Some tz) data) →
        split self X = ([], Some (ValueError msg_column))) ∧
     (∀ cols, c = SubFrame cols →
        split self X = ([], Some (ValueError msg_column)))) ∧
  (time_col self = "index" →
   ∀ tz data, index X = DatetimeIndex tz data →
     ∃ folds, split self X = (folds, None)).
Proof.
  split.
  - intros Hcol c Hget. split_and!.
    + intros col -> [data ->]%dtype_datetime64_ns. eexists.
      apply (split_setup_reads self X data). right. by split.
    + intros col -> Hd. apply (split_column_rejected self X _ Hcol Hget).
      intros data [= ->]. by apply Hd.
    + intros u tz data ->. by apply (split_column_rejected self X _ Hcol Hget).
    + intros cols ->. by apply (split_column_rejected self X _ Hcol Hget).
  - intros Hcol tz data Hidx.
    destruct (split_folds self X data) as (folds & Hsplit & _).
    + left. split; [done|]. by exists tz.
    + rewrite Hidx. unfold month_keys. simpl. by rewrite !length_fmap.
    + by exists folds.
Qed.

(** X2.  The two sides of a fold share no row, and the test side of a fold is the
    train side of the next one (for a well-formed table that passes the
    check and repeats no index value). *)
Theorem split_folds_disjoint_and_chained
    (self : MonthlySplit) (X : DataFrame) (data : list Timestamp) :
  split_reads self X data → well_formed X → NoDup (index_values (index X)) →
  ∃ folds : list fold,
    split self X = (folds, None) ∧
    (∀ (i : nat) (idx_train idx_test : list loc),
       folds !! i = Some (idx_train, idx_test) →
       ∀ l, l ∈ idx_train → l ∉ idx_test) ∧
    (∀ (i : nat) (idx_train idx_test idx_train' idx_test' : list loc),
       folds !! i = Some (idx_train, idx_test) →
       folds !! S i = Some (idx_train', idx_test') →
       idx_train' = idx_test).
Proof.
  intros Hreads Hwf Hnd.
  pose proof (split_reads_rows self X data Hreads Hwf) as Hlen.
  destruct (split_folds self X data Hreads Hlen) as (folds & Hsplit & Hn & Hfolds).
  assert (∀ i tr te, folds !! i = Some (tr, te) →
            ∃ k_train k_test,
              sorted_distinct (month_keys data) !! i = Some k_train ∧
              sorted_distinct (month_keys data) !! S i = Some k_test ∧
              tr = LocInt <$> rows_with (month_keys data) k_train ∧
              te = LocInt <$> rows_with (month_keys data) k_test) as Hfold.
  { intros i tr te Hi.
    apply lookup_lt_Some in Hi as Hlt. rewrite Hn in Hlt.
    destruct (lookup_lt_is_Some_2 (sorted_distinct (month_keys data)) i) as [k Hk]; [lia|].
    destruct (lookup_lt_is_Some_2 (sorted_distinct (month_keys data)) (S i)) as [k' Hk'];
      [lia|].
    destruct (Hfolds i k k' Hk Hk') as (a & b & Hab & Htr & Hte).
    rewrite (rows_of_unique X _ Hlen k Hnd) in Htr.
    rewrite (rows_of_unique X _ Hlen k' Hnd) in Hte.
    exists k, k'. split_and!; congruence. }
  exists folds. split_and!; [done| |].
  - intros i tr te Hi l Htr Hte.
    destruct (Hfold i tr te Hi) as (k & k' & Hk & Hk' & -> & ->).
    apply list_elem_of_fmap in Htr as (p & -> & Hp).
    apply list_elem_of_fmap in Hte as (p' & [= <-] & Hp').
    apply rows_with_spec in Hp, Hp'.
    assert (k = k') as -> by congruence.
    assert (i = S i); [|lia].
    by apply (NoDup_lookup _ _ _ _ (sorted_distinct_NoDup (month_keys data)) Hk Hk').
  - intros i tr te tr' te' Hi HSi.
    destruct (Hfold i tr te Hi) as (k & k' & Hk & Hk' & -> & ->).
    destruct (Hfold (S i) tr' te' HSi) as (k2 & k3 & Hk2 & _ & -> & _).
    congruence.
Qed.

(** X3.  On a table without rows [get_n_splits] returns [-1], and [split] yields
    nothing when the time source passes its check. *)
Theorem get_n_splits_of_no_row (self : MonthlySplit) (X : DataFrame) :
  (time_values self X = Ok [] → get_n_splits self X = Ok (-1)) ∧
  (split_reads self X [] → split self X = ([], None)).
Proof.
  split.
  - intros Hv. by rewrite (get_n_splits_times self X [] Hv).
  - intros Hreads. unfold split. by rewrite (split_setup_reads self X [] Hreads).
Qed.

(** *** Further properties of the splitter *)

Lemma split_setup_cases (self : MonthlySplit) (X : DataFrame) :
  (∃ data, split_reads self X data) ∨
  (∃ e, e ∈ [ValueError msg_index; ValueError msg_column; KeyError] ∧
        split_setup self X = Raise e).
Proof.
  destruct (decide (time_col self = "index")) as [Hcol|Hcol].
  - destruct (index X) as [tz data|data|data] eqn:Hidx.
    + left. exists data. left. split; [done|]. by exists tz.
    + right. exists (ValueError msg_index). split; [by left|].
      unfold split_setup. rewrite bool_decide_true by done. by rewrite Hidx.
    + right. exists (ValueError msg_index). split; [by left|].
      unfold split_setup. rewrite bool_decide_true by done. by rewrite Hidx.
  - destruct (getitem X (time_col self)) as [c|e] eqn:Hget.
    + destruct c as [col|cols];
        [destruct (decide (dtype col = "datetime64[ns]")) as [Hd|Hd]|].
      * apply dtype_datetime64_ns in Hd as [data ->].
        left. exists data. right. by split.
      * right. exists (ValueError msg_column). split; [by right; left|].
        unfold split_setup. rewrite bool_decide_false by done. rewrite Hget. simpl.
        by rewrite bool_decide_true by done.
      * right. exists (ValueError msg_column). split; [by right; left|].
        unfold split_setup. rewrite bool_decide_false by done. by rewrite Hget.
    + right. exists KeyError. split; [by right; right; left|].
      unfold split_setup. rewrite bool_decide_false by done. rewrite Hget. simpl.
      unfold getitem in Hget.
      destruct (filter (λ c, c.1 = time_col self) (columns X)) as [|? [|? ?]];
        congruence.
Qed.

(** X13.  On a well-formed table [split] either runs to its end without an
    exception, which it does exactly when the time source passes its check,
    or raises before it has yielded a fold, and then what it raises is one of
    the two not-datetime [ValueError]s or the [KeyError] of a missing
    column: its assertion never fails, and its loop never raises. *)
Theorem split_all_or_nothing (self : MonthlySplit) (X : DataFrame) :
  well_formed X →
  (∃ data folds, split_reads self X data ∧ split self X = (folds, None)) ∨
  ((∀ data, ¬ split_reads self X data) ∧
   ∃ e, e ∈ [ValueError msg_index; ValueError msg_column; KeyError] ∧
        split self X = ([], Some e)).
Proof.
  intros Hwf. destruct (split_setup_cases self X) as [[data Hreads]|(e & He & Hsetup)].
  - left. pose proof (split_reads_rows self X data Hreads Hwf) as Hlen.
    destruct (split_folds self X data Hreads Hlen) as (folds & Hsplit & _).
    by exists data, folds.
  - right. split.
    + intros data Hreads. rewrite (split_setup_reads self X data Hreads) in Hsetup. done.
    + exists e. split; [done|]. unfold split. by rewrite Hsetup.
Qed.

Lemma map_result_Raise {A B} (f : A → result B) (l : list A) (e : exn) :
  (∀ x e', f x = Raise e' → e' = e) →
  Exists (λ x, ∃ e', f x = Raise e') l → map_result f l = Raise e.
Proof.
  intros Hf. induction 1 as [x l [e' Hx]|x l _ IH]; simpl.
  - rewrite Hx. simpl. by rewrite (Hf x e' Hx).
  - destruct (f x) as [y|e'] eqn:Hx; simpl.
    + by rewrite IH.
    + by rewrite (Hf x e' Hx).
Qed.

Lemma size_list_to_set_le (keys : list (Z * Z)) :
  (size (list_to_set keys : gset (Z * Z)) ≤ length keys)%nat.
Proof.
  induction keys as [|k keys IH]; [done|]. simpl.
  destruct (decide (k ∈ (list_to_set keys : gset (Z * Z)))) as [Hin|Hin].
  - replace ({[k]} ∪ list_to_set keys) with (list_to_set keys : gset (Z * Z)); [lia|].
    apply set_eq. intros k'. rewrite elem_of_union, elem_of_singleton.
    split; [tauto|]. by intros [->|?].
  - rewrite size_union by (apply disjoint_singleton_l; exact Hin).
    rewrite size_singleton. lia.
Qed.

(** X14.  [get_n_splits] does not check its time source the way [split]
    does.  A missing column is a [KeyError] for both.  Otherwise
    [get_n_splits] raises [AttributeError] when some value it iterates over
    is not a timestamp, and returns a count, at least [-1] and less than
    the number of values, when all of them are timestamps, whatever the
    type of the index or the dtype of the column. *)
Theorem get_n_splits_outcomes (self : MonthlySplit) (X : DataFrame) :
  (time_col self ≠ "index" → Forall (λ c, c.1 ≠ time_col self) (columns X) →
   get_n_splits self X = Raise KeyError ∧ split self X = ([], Some KeyError)) ∧
  (∀ values, time_values self X = Ok values →
     (Exists (λ v, ∀ t, v ≠ Time t) values →
      get_n_splits self X = Raise AttributeError) ∧
     (Forall (λ v, ∃ t, v = Time t) values →
      ∃ n, get_n_splits self X = Ok n ∧ -1 ≤ n ∧ n < Z.of_nat (length values))).
Proof.
  split.
  - intros Hcol Hnone.
    assert (getitem X (time_col self) = Raise KeyError) as Hget.
    { unfold getitem.
      destruct (filter (λ c, c.1 = time_col self) (columns X)) as [|c cs] eqn:Hf; [done|].
      assert (c ∈ filter (λ c, c.1 = time_col self) (columns X)) as Hin
        by (rewrite Hf; by left).
      apply list_elem_of_filter in Hin as [Hname Hin].
      rewrite Forall_forall in Hnone. by destruct (Hnone c Hin). }
    split.
    + unfold get_n_splits. rewrite bool_decide_false by done. by rewrite Hget.
    + unfold split, split_setup. rewrite bool_decide_false by done. by rewrite Hget.
  - intros values Hvalues. rewrite get_n_splits_unfold, Hvalues. simpl. split.
    + intros Hbad.
      rewrite (map_result_Raise year_month values AttributeError); [done| |].
      * intros [t|n|s0] e' He'; simpl in He'; congruence.
      * eapply Exists_impl; [exact Hbad|]. intros [t|n|s0] Hv; simpl.
        -- by destruct (Hv t).
        -- by eexists.
        -- by eexists.
    + intros Hall.
      assert (∃ data, values = Time <$> data) as [data ->].
      { clear Hvalues. induction Hall as [|v values [t ->] _ [data ->]].
        - by exists [].
        - by exists (t :: data). }
      rewrite year_month_times. simpl. eexists. split; [done|].
      pose proof (size_list_to_set_le (month_keys data)) as Hle.
      unfold month_keys in Hle. rewrite length_fmap in Hle.
      rewrite length_fmap. unfold month_keys. lia.
Qed.

Lemma for_yield_length {A} (body : Z → result A) (range : list Z) (vs : list A) :
  for_yield body range = (vs, None) → length vs = length range.
Proof.
  revert vs. induction range as [|i range IH]; intros vs; simpl.
  - by intros [= <-].
  - destruct (body i) as [v|e]; [|done].
    destruct (for_yield body range) as [vs' e'] eqn:Hr.
    intros [= <- ->]. simpl. by rewrite (IH vs').
Qed.

(** X15.  Whenever [split] runs to its end without an exception,
    [get_n_splits] returns a number on the same table, and [split] has
    yielded that many folds, none when the number is [-1]. *)
Theorem split_yields_n_splits_folds
    (self : MonthlySplit) (X : DataFrame) (folds : list fold) :
  split self X = (folds, None) →
  ∃ n, get_n_splits self X = Ok n ∧ -1 ≤ n ∧ length folds = Z.to_nat n.
Proof.
  unfold split. destruct (split_setup self X) as [[[df months] n]|e] eqn:Hsetup; [|done].
  intros Hfolds. apply for_yield_length in Hfolds.
  unfold py_range in Hfolds. rewrite length_fmap, length_seq in Hfolds.
  unfold split_setup in Hsetup.
  apply bind_Ok in Hsetup as (df' & _ & Hsetup).
  apply bind_Ok in Hsetup as (n' & Hn & Hsetup).
  case_bool_decide as Hassert; [|done]. injection Hsetup as _ _ <-.
  exists n'. split_and!; [done| |done]. lia.
Qed.

Lemma key_lt_le (a b : Z * Z) : key_lt a b → key_le a b.
Proof. unfold key_lt, key_le. lia. Qed.

Lemma key_lt_trans : Transitive key_lt.
Proof. intros a b c. unfold key_lt. lia. Qed.

(** X16.  The two months of a fold are neighbours among the months that
    occur in the table: the month of the train side is strictly earlier
    than the month of the test side, and every row of the table has a
    month that is the train month or earlier, or the test month or later.
    (When the time source passes the check and the table is well formed;
    the sides are related to the rows of their months as for C9.) *)
Theorem split_pairs_neighbouring_months
    (self : MonthlySplit) (X : DataFrame) (data : list Timestamp) :
  split_reads self X data → well_formed X →
  ∃ folds : list fold,
    split self X = (folds, None) ∧
    ∀ (i : nat) (idx_train idx_test : list loc),
      folds !! i = Some (idx_train, idx_test) →
      ∃ k_train k_test : Z * Z,
        k_train ∈ month_keys data ∧ k_test ∈ month_keys data ∧
        key_lt k_train k_test ∧
        (∀ k, k ∈ month_keys data → key_le k k_train ∨ key_le k_test k) ∧
        located X (month_keys data) k_train idx_train ∧
        located X (month_keys data) k_test idx_test.
Proof.
  intros Hreads Hwf.
  pose proof (split_reads_rows self X data Hreads Hwf) as Hlen.
  destruct (split_folds self X data Hreads Hlen) as (folds & Hsplit & Hn & Hfolds).
  exists folds. split; [done|]. intros i idx_train idx_test Hi.
  apply lookup_lt_Some in Hi as Hlt. rewrite Hn in Hlt.
  set (months := sorted_distinct (month_keys data)) in *.
  destruct (lookup_lt_is_Some_2 months i) as [k_train Hk]; [lia|].
  destruct (lookup_lt_is_Some_2 months (S i)) as [k_test Hk']; [lia|].
  destruct (Hfolds i k_train k_test Hk Hk') as (a & b & Hab & Htr & Hte).
  assert (a = idx_train ∧ b = idx_test) as [-> ->] by (split; congruence).
  pose proof (sorted_distinct_ascending (month_keys data)) as Hsorted.
  exists k_train, k_test. split_and!.
  - apply sorted_distinct_elem. by eapply list_elem_of_lookup_2.
  - apply sorted_distinct_elem. by eapply list_elem_of_lookup_2.
  - apply (ArgsortFacts.StronglySorted_lookup key_lt months i (S i) k_train k_test);
      [done|lia|done|done].
  - intros k Hkin. apply sorted_distinct_elem in Hkin.
    apply list_elem_of_lookup in Hkin as [j Hj]. fold months in Hj.
    destruct (decide (j ≤ i)%nat) as [Hji|Hji].
    + left. destruct (decide (j = i)) as [->|Hne].
      * assert (k = k_train) as -> by congruence. unfold key_le. lia.
      * apply key_lt_le.
        apply (ArgsortFacts.StronglySorted_lookup key_lt months j i k k_train);
          [done|lia|done|done].
    + right. destruct (decide (j = S i)) as [->|Hne].
      * assert (k = k_test) as -> by congruence. unfold key_le. lia.
      * apply key_lt_le.
        apply (ArgsortFacts.StronglySorted_lookup key_lt months (S i) j k_test k);
          [done|lia|done|done].
  - by apply rows_of_located.
  - by apply rows_of_located.
Qed.

End MonthlyFacts.

(** ** The splitter on the example tables *)

Module MonthlyExamples.
Import Monthly MonthlyFacts Examples.

Lemma dated_rows_reads :
  split_reads by_date dated_rows [date 2020 12 1; date 2020 11 1; date 2020 11 15].
Proof. right. split; [by intros [=]|]. vm_compute. reflexivity. Qed.

Lemma dated_rows_well_formed : well_formed dated_rows.
Proof. unfold well_formed. apply Forall_cons. split; [reflexivity|constructor]. Qed.

Lemma dated_rows_index_NoDup : NoDup (index_values (index dated_rows)).
Proof. apply (bool_decide_unpack _). vm_compute. exact I. Qed.

Lemma shared_timestamp_reads :
  split_reads by_index shared_timestamp [date 2020 11 1; date 2020 11 1; date 2020 12 1].
Proof. left. split; [reflexivity|]. exists None. reflexivity. Qed.

Lemma shared_timestamp_well_formed : well_formed shared_timestamp.
Proof. unfold well_formed. apply Forall_nil_2. Qed.

(** C2, counterexample.  The timezone-aware [date] column of
    [utc_two_months] spans two months, November and December 2020, so one
    fold is due: [split] raises and yields none.  In [shared_timestamp] two
    of the three rows share a timestamp of November 2020 and the third is of
    December: the one fold should hold the positions [0; 1] and then [2],
    and [split] yields twice the slice [0:2] in place of the positions 0
    and 1. *)
Lemma split_misses_positional_folds :
  time_values by_date utc_two_months = Ok (Time <$> [date 2020 11 1; date 2020 12 1]) ∧
  month_keys [date 2020 11 1; date 2020 12 1] = [(2020, 11); (2020, 12)] ∧
  split by_date utc_two_months = ([], Some (ValueError msg_column)) ∧
  month_keys [date 2020 11 1; date 2020 11 1; date 2020 12 1]
    = [(2020, 11); (2020, 11); (2020, 12)] ∧
  rows_with [(2020, 11); (2020, 11); (2020, 12)] (2020, 11) = [0; 1]%nat ∧
  rows_with [(2020, 11); (2020, 11); (2020, 12)] (2020, 12) = [2%nat] ∧
  split by_index shared_timestamp
    = ([([LocSlice 0 2; LocSlice 0 2], [LocInt 2])], None).
Proof. split_and!; vm_compute; reflexivity. Qed.

Lemma split_yields_consecutive_months_witness :
  split_reads by_date dated_rows [date 2020 12 1; date 2020 11 1; date 2020 11 15] ∧
  well_formed dated_rows ∧
  NoDup (index_values (index dated_rows)) ∧
  ∃ (months : list (Z * Z)) (folds : list fold),
    StronglySorted key_lt months ∧
    split by_date dated_rows = (folds, None) ∧
    length folds = (length months - 1)%nat.
Proof.
  split_and!;
    [apply dated_rows_reads | apply dated_rows_well_formed | apply dated_rows_index_NoDup |].
  destruct (split_yields_consecutive_months by_date dated_rows _
              dated_rows_reads dated_rows_well_formed dated_rows_index_NoDup)
    as (months & folds & Hsorted & _ & Hsplit & Hlen & _).
  exists months, folds. split_and!; assumption.
Defined.

Lemma split_folds_disjoint_and_chained_witness :
  split_reads by_index three_months
    [date 2020 11 1; date 2020 11 2; date 2020 12 1; date 2021 1 5] ∧
  well_formed three_months ∧
  NoDup (index_values (index three_months)) ∧
  ∃ folds : list fold, split by_index three_months = (folds, None).
Proof.
  assert (split_reads by_index three_months
            [date 2020 11 1; date 2020 11 2; date 2020 12 1; date 2021 1 5]) as Hreads.
  { left. split; [reflexivity|]. exists None. reflexivity. }
  assert (well_formed three_months) as Hwf by apply Forall_nil_2.
  assert (NoDup (index_values (index three_months))) as Hnd.
  { apply (bool_decide_unpack _). vm_compute. exact I. }
  split_and!; [exact Hreads | exact Hwf | exact Hnd |].
  destruct (split_folds_disjoint_and_chained by_index three_months _ Hreads Hwf Hnd)
    as (folds & Hsplit & _).
  exists folds. exact Hsplit.
Defined.

Lemma get_n_splits_of_no_row_witness :
  time_values by_index no_rows = Ok [] ∧
  get_n_splits by_index no_rows = Ok (-1) ∧
  split_reads by_index no_rows [] ∧
  split by_index no_rows = ([], None).
Proof.
  assert (time_values by_index no_rows = Ok []) as Hv by reflexivity.
  assert (split_reads by_index no_rows []) as Hreads.
  { left. split; [reflexivity|]. exists None. reflexivity. }
  destruct (get_n_splits_of_no_row by_index no_rows) as [Hn Hsplit].
  split_and!; [exact Hv | exact (Hn Hv) | exact Hreads | exact (Hsplit Hreads)].
Defined.

(** The fold of [dated_rows]: the rows of November 2020, at positions 1 and
    2, then the row of December, at position 0. *)
Example split_dated_rows :
  split by_date dated_rows = ([([LocInt 1; LocInt 2], [LocInt 0])], None).
Proof. vm_compute. reflexivity. Qed.

Example split_three_months :
  split by_index three_months
  = ([([LocInt 0; LocInt 1], [LocInt 2]); ([LocInt 2], [LocInt 3])], None).
Proof. vm_compute. reflexivity. Qed.

(** C3, counterexample.  The rows of the timezone-aware [date] column all
    fall in November 2020: [get_n_splits] returns 0, and [split] raises
    instead of yielding nothing. *)
Lemma split_one_month_utc_raises :
  time_values by_date utc_one_month = Ok (Time <$> [date 2020 11 1; date 2020 11 2]) ∧
  month_keys [date 2020 11 1; date 2020 11 2] = [(2020, 11); (2020, 11)] ∧
  get_n_splits by_date utc_one_month = Ok 0 ∧
  split by_date utc_one_month = ([], Some (ValueError msg_column)).
Proof. split_and!; vm_compute; reflexivity. Qed.

Lemma get_n_splits_counts_months_witness :
  time_values by_date dated_rows
    = Ok (Time <$> [date 2020 12 1; date 2020 11 1; date 2020 11 15]) ∧
  NoDup [(2020, 11); (2020, 12)] ∧
  (∀ k, k ∈ [(2020, 11); (2020, 12)]
        ↔ k ∈ month_keys [date 2020 12 1; date 2020 11 1; date 2020 11 15]) ∧
  get_n_splits by_date dated_rows = Ok (Z.of_nat (length [(2020, 11); (2020, 12)]) - 1).
Proof.
  assert (time_values by_date dated_rows
          = Ok (Time <$> [date 2020 12 1; date 2020 11 1; date 2020 11 15])) as Hv
    by (vm_compute; reflexivity).
  assert (NoDup [(2020, 11); (2020, 12)]) as Hnd.
  { apply (bool_decide_unpack _). vm_compute. exact I. }
  assert (∀ k, k ∈ [(2020, 11); (2020, 12)]
               ↔ k ∈ month_keys [date 2020 12 1; date 2020 11 1; date 2020 11 15]) as Hk.
  { intros k. unfold month_keys, date. rewrite !fmap_cons. cbn [year month].
    rewrite !elem_of_cons. tauto. }
  split_and!; [exact Hv | exact Hnd | exact Hk |].
  destruct (get_n_splits_counts_months by_date dated_rows _ _ Hv Hnd Hk) as [Hn _].
  exact Hn.
Defined.

Lemma split_rejects_non_datetime_witness :
  time_col by_index = "index" ∧
  isinstance_DatetimeIndex (index text_dates) = false ∧
  split by_index text_dates = ([], Some (ValueError msg_index)) ∧
  time_col by_date ≠ "index" ∧
  getitem text_dates (time_col by_date)
    = Ok (OneSeries (ObjectSeries [Str "2020-11-01"; Str "2020-12-01"])) ∧
  split by_date text_dates = ([], Some (ValueError msg_column)).
Proof.
  destruct (split_rejects_non_datetime by_index text_dates) as (Hidx & _ & _).
  destruct (split_rejects_non_datetime by_date text_dates) as (_ & Hcol & _).
  assert (time_col by_date ≠ "index") as Hne by (by intros [=]).
  split_and!; [reflexivity | reflexivity | by apply Hidx | exact Hne | reflexivity |].
  apply (Hcol Hne (OneSeries (ObjectSeries [Str "2020-11-01"; Str "2020-12-01"])));
    [reflexivity|]. intros u tz data H. discriminate H.
Defined.

Lemma split_entries_located_by_get_loc_witness :
  split_reads by_index shared_timestamp
    [date 2020 11 1; date 2020 11 1; date 2020 12 1] ∧
  well_formed shared_timestamp ∧
  sorted_distinct (month_keys [date 2020 11 1; date 2020 11 1; date 2020 12 1])
    = [(2020, 11); (2020, 12)] ∧
  rows_with (month_keys [date 2020 11 1; date 2020 11 1; date 2020 12 1]) (2020, 11)
    = [0; 1]%nat ∧
  index_values (index shared_timestamp) !! 0%nat = Some (Time (date 2020 11 1)) ∧
  (2 ≤ matches (Time (date 2020 11 1)) (index_values (index shared_timestamp)))%nat ∧
  ∃ (folds : list fold) (idx_train idx_test : list loc),
    split by_index shared_timestamp = (folds, None) ∧
    length folds = 1%nat ∧
    folds !! 0%nat = Some (idx_train, idx_test) ∧
    idx_train ≠ [LocInt 0; LocInt 1].
Proof.
  assert (sorted_distinct (month_keys [date 2020 11 1; date 2020 11 1; date 2020 12 1])
          = [(2020, 11); (2020, 12)]) as Hmonths by (vm_compute; reflexivity).
  assert (rows_with (month_keys [date 2020 11 1; date 2020 11 1; date 2020 12 1]) (2020, 11)
          = [0; 1]%nat) as Hrows by (vm_compute; reflexivity).
  assert (2 ≤ matches (Time (date 2020 11 1)) (index_values (index shared_timestamp)))%nat
    as Hmany by (vm_compute; lia).
  split_and!;
    [apply shared_timestamp_reads | apply shared_timestamp_well_formed | exact Hmonths
    | exact Hrows | reflexivity | exact Hmany |].
  destruct (split_entries_located_by_get_loc by_index shared_timestamp _
              shared_timestamp_reads shared_timestamp_well_formed)
    as (folds & Hsplit & Hlen & Hfolds).
  rewrite Hmonths in Hlen, Hfolds.
  destruct (Hfolds 0%nat (2020, 11) (2020, 12) eq_refl eq_refl)
    as (idx_train & idx_test & Hfold & _ & _ & _ & _ & _ & Hrep).
  destruct (Hrep 0%nat (Time (date 2020 11 1)) eq_refl Hmany) as [Htrain _].
  rewrite Hrows in Htrain.
  exists folds, idx_train, idx_test. split_and!; [exact Hsplit | exact Hlen | exact Hfold |].
  apply Htrain. by left.
Defined.

(** Repeated index values: a slice when the index is ascending, a mask when
    it is not. *)
Example split_shared_timestamp_shuffled :
  split by_index shared_timestamp_shuffled
  = ([([LocMask [false; true; true]; LocMask [false; true; true]], [LocInt 0])], None).
Proof. vm_compute. reflexivity. Qed.

Lemma split_column_dtype_check_witness :
  time_col by_date ≠ "index" ∧
  getitem utc_one_month (time_col by_date)
    = Ok (OneSeries (DatetimeSeries ns (Some "UTC") [date 2020 11 1; date 2020 11 2])) ∧
  split by_date utc_one_month = ([], Some (ValueError msg_column)) ∧
  getitem dated_rows (time_col by_date)
    = Ok (OneSeries (DatetimeSeries ns None
                       [date 2020 12 1; date 2020 11 1; date 2020 11 15])) ∧
  (∃ r, split_setup by_date dated_rows = Ok r) ∧
  time_col by_index = "index" ∧
  ∃ folds, split by_index shared_timestamp = (folds, None).
Proof.
  assert (time_col by_date ≠ "index") as Hne by (by intros [=]).
  destruct (split_column_dtype_check by_date utc_one_month) as [Hutc _].
  destruct (Hutc Hne _ eq_refl) as (_ & _ & Htz & _).
  destruct (split_column_dtype_check by_date dated_rows) as [Hdated _].
  destruct (Hdated Hne _ eq_refl) as (Hok & _).
  destruct (split_column_dtype_check by_index shared_timestamp) as [_ Hindex].
  split_and!;
    [exact Hne | reflexivity | exact (Htz _ _ _ eq_refl) | reflexivity
    | exact (Hok _ eq_refl eq_refl) | reflexivity |].
  exact (Hindex eq_refl None [date 2020 11 1; date 2020 11 1; date 2020 12 1] eq_refl).
Defined.

Lemma split_all_or_nothing_witness :
  well_formed dated_rows ∧ well_formed text_dates ∧
  ((∃ data folds, split_reads by_date dated_rows data ∧
                  split by_date dated_rows = (folds, None)) ∨
   ((∀ data, ¬ split_reads by_date dated_rows data) ∧
    ∃ e, e ∈ [ValueError msg_index; ValueError msg_column; KeyError] ∧
         split by_date dated_rows = ([], Some e))) ∧
  ((∃ data folds, split_reads by_date text_dates data ∧
                  split by_date text_dates = (folds, None)) ∨
   ((∀ data, ¬ split_reads by_date text_dates data) ∧
    ∃ e, e ∈ [ValueError msg_index; ValueError msg_column; KeyError] ∧
         split by_date text_dates = ([], Some e))).
Proof.
  assert (well_formed text_dates) as Hwf.
  { unfold well_formed. apply Forall_cons. split; [reflexivity|constructor]. }
  split_and!; [apply dated_rows_well_formed | exact Hwf | |].
  - exact (split_all_or_nothing by_date dated_rows dated_rows_well_formed).
  - exact (split_all_or_nothing by_date text_dates Hwf).
Defined.

Lemma get_n_splits_outcomes_witness :
  time_col by_date ≠ "index" ∧
  Forall (λ c, c.1 ≠ time_col by_date) (columns three_months) ∧
  get_n_splits by_date three_months = Raise KeyError ∧
  split by_date three_months = ([], Some KeyError) ∧
  time_values by_date text_dates = Ok [Str "2020-11-01"; Str "2020-12-01"] ∧
  Exists (λ v, ∀ t, v ≠ Time t) [Str "2020-11-01"; Str "2020-12-01"] ∧
  get_n_splits by_date text_dates = Raise AttributeError ∧
  time_values by_date utc_two_months = Ok (Time <$> [date 2020 11 1; date 2020 12 1]) ∧
  Forall (λ v, ∃ t, v = Time t) (Time <$> [date 2020 11 1; date 2020 12 1]) ∧
  ∃ n, get_n_splits by_date utc_two_months = Ok n ∧ -1 ≤ n.
Proof.
  assert (time_col by_date ≠ "index") as Hne by (by intros [=]).
  assert (Forall (λ c, c.1 ≠ time_col by_date) (columns three_months)) as Hnone
    by apply Forall_nil_2.
  assert (time_values by_date text_dates = Ok [Str "2020-11-01"; Str "2020-12-01"])
    as Htext by reflexivity.
  assert (Exists (λ v, ∀ t, v ≠ Time t) [Str "2020-11-01"; Str "2020-12-01"]) as Hbad.
  { left. intros t H. discriminate H. }
  assert (time_values by_date utc_two_months
          = Ok (Time <$> [date 2020 11 1; date 2020 12 1])) as Hutc by reflexivity.
  assert (Forall (λ v, ∃ t, v = Time t) (Time <$> [date 2020 11 1; date 2020 12 1]))
    as Hgood.
  { rewrite Forall_fmap. apply Forall_true. intros t. by exists t. }
  destruct (get_n_splits_outcomes by_date three_months) as [Hmissing _].
  destruct (Hmissing Hne Hnone) as [Hn Hsplit].
  destruct (get_n_splits_outcomes by_date text_dates) as [_ Hvalues].
  destruct (Hvalues _ Htext) as [Hattr _].
  destruct (get_n_splits_outcomes by_date utc_two_months) as [_ Hvalues'].
  destruct (Hvalues' _ Hutc) as [_ Hcount].
  destruct (Hcount Hgood) as (n & Hcounted & Hlo & _).
  split_and!;
    [exact Hne | exact Hnone | exact Hn | exact Hsplit | exact Htext | exact Hbad
    | exact (Hattr Hbad) | exact Hutc | exact Hgood |].
  exists n. split; [exact Hcounted | exact Hlo].
Defined.

Lemma split_yields_n_splits_folds_witness :
  split by_index three_months
  = ([([LocInt 0; LocInt 1], [LocInt 2]); ([LocInt 2], [LocInt 3])], None) ∧
  ∃ n, get_n_splits by_index three_months = Ok n ∧ 2%nat = Z.to_nat n.
Proof.
  assert (split by_index three_months
          = ([([LocInt 0; LocInt 1], [LocInt 2]); ([LocInt 2], [LocInt 3])], None))
    as Hsplit by (vm_compute; reflexivity).
  split; [exact Hsplit|].
  destruct (split_yields_n_splits_folds by_index three_months _ Hsplit)
    as (n & Hn & _ & Hlen).
  exists n. split; [exact Hn | exact Hlen].
Defined.

Lemma split_pairs_neighbouring_months_witness :
  split_reads by_date dated_rows [date 2020 12 1; date 2020 11 1; date 2020 11 15] ∧
  well_formed dated_rows ∧
  ∃ folds : list fold, split by_date dated_rows = (folds, None).
Proof.
  split_and!; [apply dated_rows_reads | apply dated_rows_well_formed |].
  destruct (split_pairs_neighbouring_months by_date dated_rows _
              dated_rows_reads dated_rows_well_formed) as (folds & Hsplit & _).
  exists folds. exact Hsplit.
Defined.

End MonthlyExamples.
